(** * vonoi: power diagrams by lifting, polygon clipping and relaxation

    A shallow embedding of the geometry code of the repository:

    - [PowerDiagram]     the exported [computePowerDiagram] with its lifting
                         transform, face normals and plane coefficients;
    - [PolyClip]         [src/lib/poly_clip.ts], the Sutherland-Hodgman
                         [clipPolygon], over a store of array objects;
    - [WeightedVoronoi]  the class of that name: [polygonClip] and the
                         relaxation loop [compute];
    - [Canvas]           the calls a routine makes on a 2D rendering context,
                         for [render_weighted_voronoi] and [render].

    JavaScript numbers are IEEE 754 binary64 values, and so are Rocq's
    primitive floats: [+ - * /], [Math.sqrt], [Math.abs] and the comparisons
    are the primitive operations, [===] on numbers is [PrimFloat.eqb]
    (so [NaN === NaN] is false and [0 === -0] is true).  The one
    idealisation is [v ** 2], taken to be the correctly rounded product
    [v * v].  Reading a missing array element gives [undefined] ([None]);
    reading a property of [undefined] throws a [TypeError].  The convex
    hull routine [quickhull3d] and [Math.random] are not part of the
    repository and are parameters of the development; the calls of
    [console.log] are left out. *)

From Stdlib Require Import Floats ZArith List Lia Bool.
From stdpp Require Import gmap list strings.
Import ListNotations.

Open Scope float_scope.

(** A decimal literal stands for the nearest binary64 value, as it does in
    JavaScript. *)
Set Warnings "-inexact-float".

(** ** JavaScript numbers *)

Module JsNum.

(** [v ** 2] *)
Definition sq (v : float) : float := v * v.

(** The global [isFinite] on a number. *)
Definition isFinite (v : float) : bool := is_finite v.

(** [Math.min(a, b)]: [NaN] when either argument is, and [-0] below [+0]. *)
Definition Math_min (a b : float) : float :=
  if is_nan a then nan
  else if is_nan b then nan
  else if a <? b then a
  else if b <? a then b
  else if get_sign a then a else b.

(** [Math.PI] *)
Definition Math_PI : float := 0x1.921fb54442d18p+1.

(** A length or an index as a number. *)
Definition numOfNat (n : nat) : float := of_uint63 (Uint63.of_Z (Z.of_nat n)).

(** Truthiness of a number: every number but [0], [-0] and [NaN]. *)
Definition truthy (v : float) : bool := negb ((v =? 0) || is_nan v).

End JsNum.
Import JsNum.

(** ** Exceptions *)

Inductive exn : Set :=
| TypeError   (** a property of [undefined] was read *)
| HullError.  (** the convex hull routine threw *)

Inductive result (A : Type) : Type :=
| Ok (a : A)
| Throw (e : exn).
Arguments Ok {A} a.
Arguments Throw {A} e.

Definition bind {A B} (m : result A) (k : A -> result B) : result B :=
  match m with
  | Ok a => k a
  | Throw e => Throw e
  end.

Notation "'let*' x := m 'in' k" := (bind m (fun x => k))
  (at level 10, x name, m at level 100, k at level 200, only parsing).

Fixpoint foldM {A S} (f : S -> A -> result S) (l : list A) (s : S) : result S :=
  match l with
  | [] => Ok s
  | v :: l' => let* s' := f s v in foldM f l' s'
  end.

(** [l.filter(p)] and [l.map(f)] with callbacks that may throw: the
    callback runs on the elements in order and the first exception ends the
    call. *)
Fixpoint filterM {A} (p : A -> result bool) (l : list A) : result (list A) :=
  match l with
  | [] => Ok []
  | v :: l' =>
      let* keep := p v in
      let* r := filterM p l' in
      Ok (if keep then v :: r else r)
  end.

Fixpoint mapM' {A B} (f : A -> result B) (l : list A) : result (list B) :=
  match l with
  | [] => Ok []
  | v :: l' =>
      let* w := f v in
      let* r := mapM' f l' in
      Ok (w :: r)
  end.

(** ** The canvas *)

Module Canvas.

(** A call on a [CanvasRenderingContext2D], or an assignment to one of its
    two style properties. *)
Inductive DrawOp : Set :=
| ctx_clearRect (x y w h : float)
| ctx_save
| ctx_restore
| ctx_translate (x y : float)
| ctx_scale (x y : float)
| ctx_beginPath
| ctx_moveTo (x y : float)
| ctx_lineTo (x y : float)
| ctx_closePath
| ctx_arc (x y radius startAngle endAngle : float)
| ctx_strokeStyle (style : string)
| ctx_fillStyle (style : string)
| ctx_stroke
| ctx_fill.

(** An [HTMLCanvasElement]: its size, and whether [getContext("2d")] gives
    a context or [null]. *)
Record HTMLCanvasElement : Set :=
  { width : float; height : float; getContext2d : bool }.

(** A drawing routine: the calls it made on the context, in order, and how
    it ended.  The calls made before an exception stay made. *)
Definition Draw (A : Type) : Type := (list DrawOp * result A)%type.

Definition emit (op : DrawOp) : Draw unit := ([op], Ok tt).

Definition lift {A} (m : result A) : Draw A := ([], m).

Definition bindD {A B} (m : Draw A) (k : A -> Draw B) : Draw B :=
  match m with
  | (ops, Ok a) => let '(ops', r) := k a in (ops ++ ops', r)
  | (ops, Throw e) => (ops, Throw e)
  end.

(** Statements in sequence, and a loop over an array. *)
Fixpoint seqD (steps : list (Draw unit)) : Draw unit :=
  match steps with
  | [] => ([], Ok tt)
  | step :: steps' => bindD step (fun _ => seqD steps')
  end.

Fixpoint forEachD {A} (f : A -> Draw unit) (l : list A) : Draw unit :=
  match l with
  | [] => ([], Ok tt)
  | v :: l' => bindD (f v) (fun _ => forEachD f l')
  end.

End Canvas.
Import Canvas.

(** ** The power diagram by lifting ([computePowerDiagram]) *)

Module PowerDiagram.

Record Point2D : Set := { x : float; y : float }.

(** [Point3D = { z } & Point2D] and [Site = { weight } & Point2D]: a
    3D point and a site are 2D points with one more field. *)
Record Point3D : Set := { point3D_2D :> Point2D; z : float }.
Record Site : Set := { site_2D :> Point2D; weight : float }.

Definition Polygon : Set := list Point2D.
Record Plane : Set := { a : float; b : float; c : float; d : float }.

Definition mkPoint3D (vx vy vz : float) : Point3D :=
  {| point3D_2D := {| x := vx; y := vy |}; z := vz |}.
Definition mkSite (vx vy w : float) : Site :=
  {| site_2D := {| x := vx; y := vy |}; weight := w |}.

Definition delta (plane : Plane) : Point3D :=
  mkPoint3D (a plane / 2) (b plane / 2) (- c plane).

Definition transformSiteToDualSpace (site : Site) : Point3D :=
  let r := sqrt (weight site) in
  mkPoint3D (x site) (y site) (sq (x site) + sq (y site) - sq r).

Definition computeNormal (p1 p2 p3 : Point3D) : Point3D :=
  let v1 := x p2 - x p1 in
  let v2 := y p2 - y p1 in
  let v3 := z p2 - z p1 in
  let w1 := x p3 - x p1 in
  let w2 := y p3 - y p1 in
  let w3 := z p3 - z p1 in
  let nx := v2 * w3 - v3 * w2 in
  let ny := v3 * w1 - v1 * w3 in
  let nz := v1 * w2 - v2 * w1 in
  mkPoint3D nx ny nz.

Definition mapTo2D (point : Point3D) : Point2D :=
  {| x := x point; y := y point |}.

(** The four numerators of [calculatePlaneCoefficients]. *)
Definition alphaOf (P1 P2 P3 : Point3D) : float :=
  y P1 * (z P2 - z P3) + y P2 * (z P3 - z P1) + y P3 * (z P1 - z P2).
Definition betaOf (P1 P2 P3 : Point3D) : float :=
  z P1 * (x P2 - x P3) + z P2 * (x P3 - x P1) + z P3 * (x P1 - x P2).
Definition gammaOf (P1 P2 P3 : Point3D) : float :=
  x P1 * (y P2 - y P3) + x P2 * (y P3 - y P1) + x P3 * (y P1 - y P2).
Definition deltaOf (P1 P2 P3 : Point3D) : float :=
  x P1 * (y P2 * z P3 - y P3 * z P2)
  + x P2 * (y P3 * z P1 - y P1 * z P3)
  + x P3 * (y P1 * z P2 - y P2 * z P1).

Definition calculatePlaneCoefficients (P1 P2 P3 : Point3D) : Plane :=
  let alpha := alphaOf P1 P2 P3 in
  let beta := betaOf P1 P2 P3 in
  let gamma := gammaOf P1 P2 P3 in
  let delta := deltaOf P1 P2 P3 in
  {| a := - alpha / gamma;
     b := - beta / gamma;
     c := delta / gamma;
     d := delta / gamma |}.

(** A hull face after [f.map(i => dualPoints[i])]: an index outside the
    array gives [undefined]. *)
Definition Face : Set := list (option Point3D).

(** [computeNormal(...f).z < 0]: the first three elements of [f] are the
    arguments; a missing or [undefined] one makes [computeNormal] throw. *)
Definition isLowerFace (f : Face) : result bool :=
  match f with
  | Some p1 :: Some p2 :: Some p3 :: _ => Ok (z (computeNormal p1 p2 p3) <? 0)
  | _ => Throw TypeError
  end.

(** [f.some(p => p.x === site.x && p.y === site.y)] *)
Fixpoint touchesSite (site : Site) (f : Face) : result bool :=
  match f with
  | [] => Ok false
  | None :: _ => Throw TypeError
  | Some p :: f' =>
      if (x p =? x site) && (y p =? y site) then Ok true
      else touchesSite site f'
  end.

(** [([p1, p2, p3]) => delta(calculatePlaneCoefficients(p1, p2, p3))] *)
Definition dualPointOfFace (f : Face) : result Point3D :=
  match f with
  | Some p1 :: Some p2 :: Some p3 :: _ =>
      Ok (delta (calculatePlaneCoefficients p1 p2 p3))
  | _ => Throw TypeError
  end.

(** The body of the loop over the sites: the value pushed on [cells]. *)
Definition cellOfSite (lower_faces : list Face) (site : Site) : result Polygon :=
  let* relevantFaces := filterM (touchesSite site) lower_faces in
  let* points := mapM' dualPointOfFace relevantFaces in
  Ok (List.map mapTo2D points).

Definition dualPointsOf (sites : list Site) : list Point3D :=
  List.map transformSiteToDualSpace sites.

Definition hullTrianglesOf (dualPoints : list Point3D) (hull : list (list nat))
  : list Face :=
  List.map (fun f => List.map (fun i => dualPoints !! i) f) hull.

Definition lowerFacesOf (hull_triangles : list Face) : result (list Face) :=
  filterM isLowerFace hull_triangles.

Section WithHull.

(** [quickhull3d]: from the points, the faces as lists of point indices,
    or an exception. *)
Variable qh : list (float * float * float) -> result (list (list nat)).

Definition computePowerDiagram (sites : list Site) : result (list Polygon) :=
  let dualPoints := dualPointsOf sites in
  let* hull := qh (List.map (fun p : Point3D => (x p, y p, z p)) dualPoints) in
  let hull_triangles := hullTrianglesOf dualPoints hull in
  let* lower_faces := lowerFacesOf hull_triangles in
  let* cells := mapM' (cellOfSite lower_faces) sites in
  Ok cells.

End WithHull.

(** [transformSiteTo3D], the lifting of [computeConvexHull]. *)
Definition transformSiteTo3D (site : Site) : Point3D :=
  let r := sqrt (weight site) in
  mkPoint3D (x site) (y site)
            (2 * (x site * y site) - (sq (x site) + sq (y site)) + sq r).

Section WithHullAndCanvas.

Variable qh : list (float * float * float) -> result (list (list nat)).

Definition colors : list string :=
  ["#FF000088"; "#00FF0088"; "#0000FF88"; "#FFFF0088"; "#FF00FF88"; "#00FFFF88"].

(** [polygon[i]] where a coordinate is read off it next: a [TypeError] when
    the element is missing. *)
Definition vertexAt (polygon : list Point2D) (i : nat) : result Point2D :=
  match polygon !! i with
  | Some p => Ok p
  | None => Throw TypeError
  end.

(** The callback of [diagram.map((cell, index) => ...)].  The colour index
    is below [colors.length], so the colour is never [undefined]. *)
Definition drawCell (indexed : nat * Polygon) : Draw unit :=
  let '(index, cell) := indexed in
  seqD [emit ctx_beginPath;
        forEachD (fun p : Point2D => emit (ctx_lineTo (x p) (y p))) cell;
        bindD (lift (vertexAt cell 0))
              (fun p : Point2D => emit (ctx_moveTo (x p) (y p)));
        emit ctx_closePath;
        match colors !! (index mod length colors)%nat with
        | Some color => emit (ctx_fillStyle color)
        | None => ([], Ok tt)
        end;
        emit ctx_fill;
        emit (ctx_strokeStyle "blue");
        emit ctx_stroke].

Definition drawSite (site : Site) : Draw unit :=
  seqD [emit ctx_beginPath;
        emit (ctx_arc (x site) (y site) 6 0 (2 * Math_PI));
        emit (ctx_fillStyle "black");
        emit ctx_fill].

Definition drawVertex (p : Point2D) : Draw unit :=
  seqD [emit ctx_beginPath;
        emit (ctx_arc (x p) (y p) 2 0 (2 * Math_PI));
        emit (ctx_fillStyle "red");
        emit ctx_fill].

(** [render_weighted_voronoi(sites, boundingPolygon, canvas)]: the diagram
    is computed before the context is asked for. *)
Definition render_weighted_voronoi (sites : list Site) (boundingPolygon : list Point2D)
    (canvas : HTMLCanvasElement) : Draw unit :=
  bindD (lift (computePowerDiagram qh sites)) (fun diagram =>
    if negb (getContext2d canvas) then ([], Ok tt)
    else
      seqD [emit (ctx_clearRect 0 0 (width canvas) (height canvas));
            emit ctx_beginPath;
            bindD (lift (vertexAt boundingPolygon 0))
                  (fun p : Point2D => emit (ctx_moveTo (x p) (y p)));
            forEachD (fun p : Point2D => emit (ctx_lineTo (x p) (y p)))
                     (drop 1 boundingPolygon);
            emit ctx_closePath;
            emit (ctx_strokeStyle "black");
            emit ctx_stroke;
            forEachD drawCell (combine (seq 0 (length diagram)) diagram);
            forEachD drawSite sites;
            forEachD (forEachD drawVertex) diagram]).

End WithHullAndCanvas.

End PowerDiagram.

(** ** Sutherland-Hodgman clipping ([src/lib/poly_clip.ts]) *)

Module PolyClip.

Import PowerDiagram.

(** Arrays are objects: a variable holds a reference into the store, and
    [push] changes the array every alias sees. *)
Abbreviation ref := nat.
Abbreviation store := (gmap nat (list Point2D)).

(** [[]]: a new array, at a reference the store does not use yet. *)
Definition alloc (h : store) : store * ref :=
  let r := fresh (dom h) in (<[r := []]> h, r).

(** [r.push(p)] *)
Definition push (h : store) (r : ref) (p : Point2D) : store :=
  alter (fun l => l ++ [p]) r h.

(** [inside]: [l > r] is [r <? l]. *)
Definition inside (p edgeStart edgeEnd : Point2D) : bool :=
  (y edgeEnd - y edgeStart) * (x p - x edgeStart)
  <? (x edgeEnd - x edgeStart) * (y p - y edgeStart).

(** The [denom] of [computeIntersection]. *)
Definition denomOf (start end_ edgeStart edgeEnd : Point2D) : float :=
  let dx := x end_ - x start in
  let dy := y end_ - y start in
  let edgeDx := x edgeEnd - x edgeStart in
  let edgeDy := y edgeEnd - y edgeStart in
  dx * edgeDy - dy * edgeDx.

Definition computeIntersection (start end_ edgeStart edgeEnd : Point2D) : Point2D :=
  let dx := x end_ - x start in
  let dy := y end_ - y start in
  let edgeDx := x edgeEnd - x edgeStart in
  let edgeDy := y edgeEnd - y edgeStart in
  let denom := denomOf start end_ edgeStart edgeEnd in
  if denom =? 0 then {| x := 0; y := 0 |}
  else
    let t := ((x start - x edgeStart) * edgeDy - (y start - y edgeStart) * edgeDx) / denom in
    {| x := x start + t * dx; y := y start + t * dy |}.

(** The body of [for (const E of inputList)]: the pushes on [outputList]
    for the subject edge from [S] to [E] (here [S']). *)
Definition clipVertex (edgeStart edgeEnd : Point2D) (outputList : ref)
    (S' E : Point2D) (h : store) : store :=
  if inside E edgeStart edgeEnd then
    let h :=
      if negb (inside S' edgeStart edgeEnd)
      then push h outputList (computeIntersection S' E edgeStart edgeEnd)
      else h in
    push h outputList E
  else if inside S' edgeStart edgeEnd then
    push h outputList (computeIntersection S' E edgeStart edgeEnd)
  else h.

(** The loop over [inputList], whose elements are [input]; [S = E] ends each
    turn.  The array pushed to was allocated by this pass, so the pushes
    leave the array that is iterated as it was. *)
Fixpoint clipVertices (edgeStart edgeEnd : Point2D) (outputList : ref)
    (S' : Point2D) (input : list Point2D) (h : store) : store :=
  match input with
  | [] => h
  | E :: rest =>
      clipVertices edgeStart edgeEnd outputList E rest
        (clipVertex edgeStart edgeEnd outputList S' E h)
  end.

(** One turn of the loop over the clip edges, for the index [i]. *)
Definition clipEdge (clippingBoundary : list Point2D) (st : store * ref) (i : nat)
  : store * ref :=
  let '(h, outputList) := st in
  match clippingBoundary !! i,
        clippingBoundary !! ((i + 1) mod length clippingBoundary)%nat with
  | Some edgeStart, Some edgeEnd =>
      let inputList := outputList in
      let '(h, outputList) := alloc h in
      let input := default [] (h !! inputList) in
      match last input with
      | Some S' => (clipVertices edgeStart edgeEnd outputList S' input h, outputList)
      | None => (h, outputList)
      end
  | _, _ => st
  end.

(** [clipPolygon(polygon, clippingBoundary)]: the store after the call and
    the reference returned. *)
Definition clipPolygon (h : store) (polygon clippingBoundary : ref) : store * ref :=
  let boundary := default [] (h !! clippingBoundary) in
  fold_left (clipEdge boundary) (seq 0 (length boundary)) (h, polygon).

(** The same on values: the vertices of the returned array, from the
    vertices of the two arguments. *)
Definition clipVertexV (edgeStart edgeEnd S' E : Point2D) : list Point2D :=
  if inside E edgeStart edgeEnd then
    (if negb (inside S' edgeStart edgeEnd)
     then [computeIntersection S' E edgeStart edgeEnd] else []) ++ [E]
  else if inside S' edgeStart edgeEnd then
    [computeIntersection S' E edgeStart edgeEnd]
  else [].

Fixpoint clipVerticesV (edgeStart edgeEnd S' : Point2D) (input : list Point2D)
  : list Point2D :=
  match input with
  | [] => []
  | E :: rest =>
      clipVertexV edgeStart edgeEnd S' E ++ clipVerticesV edgeStart edgeEnd E rest
  end.

Definition clipEdgeV (clippingBoundary : list Point2D) (input : list Point2D) (i : nat)
  : list Point2D :=
  match clippingBoundary !! i,
        clippingBoundary !! ((i + 1) mod length clippingBoundary)%nat with
  | Some edgeStart, Some edgeEnd =>
      match last input with
      | Some S' => clipVerticesV edgeStart edgeEnd S' input
      | None => []
      end
  | _, _ => input
  end.

Definition clipPolygonV (polygon clippingBoundary : list Point2D) : list Point2D :=
  fold_left (clipEdgeV clippingBoundary) (seq 0 (length clippingBoundary)) polygon.

End PolyClip.

(** ** The relaxation driver (class [WeightedVoronoi]) *)

Module WeightedVoronoi.

Definition Point : Set := (float * float)%type.
Definition Vector3 : Set := (float * float * float)%type.
Record Site : Set := { x : float; y : float; weight : float }.

(** A [Point[]] at run time: [polygonClip] can push [undefined] on the
    array it returns. *)
Definition Points : Set := list (option Point).

(** [arr[k]] for an integer [k]: [undefined] outside the array. *)
Definition at_ {A} (arr : list (option A)) (k : Z) : option A :=
  if (k <? 0)%Z then None
  else match arr !! Z.to_nat k with
       | Some v => v
       | None => None
       end.

Definition polygonInside (p a b : option Point) : result bool :=
  match p, a, b with
  | Some p, Some a, Some b =>
      Ok ((fst b - fst a) * (snd p - snd a) <? (snd b - snd a) * (fst p - fst a))
  | _, _, _ => Throw TypeError
  end.

(** The divisor of [ua] in [polygonIntersect]. *)
Definition uaDivisor (c d a b : Point) : float :=
  let x1 := fst c in
  let x3 := fst a in
  let x21 := fst d - x1 in
  let x43 := fst b - x3 in
  let y1 := snd c in
  let y3 := snd a in
  let y21 := snd d - y1 in
  let y43 := snd b - y3 in
  y43 * x21 - x43 * y21.

Definition polygonIntersect (c d a b : option Point) : result Point :=
  match c, d, a, b with
  | Some c, Some d, Some a, Some b =>
      let x1 := fst c in
      let x3 := fst a in
      let x21 := fst d - x1 in
      let x43 := fst b - x3 in
      let y1 := snd c in
      let y3 := snd a in
      let y21 := snd d - y1 in
      let y43 := snd b - y3 in
      let ua := (x43 * (y1 - y3) - y43 * (x1 - x3)) / uaDivisor c d a b in
      Ok (x1 + ua * x21, y1 + ua * y21)
  | _, _, _, _ => Throw TypeError
  end.

Definition polygonClosed (coordinates : Points) : result bool :=
  match at_ coordinates 0, at_ coordinates (Z.of_nat (length coordinates) - 1) with
  | Some a, Some b =>
      Ok (negb (truthy (fst a - fst b) || truthy (snd a - snd b)))
  | _, _ => Throw TypeError
  end.

(** [intersection = polygonIntersect(c, d, a, b)] and the guarded push. *)
Definition pushIntersection (c d a b : option Point) (subject : Points)
  : result Points :=
  let* intersection := polygonIntersect c d a b in
  Ok (if isFinite (fst intersection)
      then subject ++ [Some intersection] else subject).

(** The body of the inner loop: the state is [subject] and [c]. *)
Definition clipVertex (a b : option Point) (st : Points * option Point)
    (d : option Point) : result (Points * option Point) :=
  let '(subject, c) := st in
  let* d_in := polygonInside d a b in
  if d_in then
    let* c_in := polygonInside c a b in
    let* subject :=
      (if negb c_in then pushIntersection c d a b subject else Ok subject) in
    Ok (subject ++ [d], d)
  else
    let* c_in := polygonInside c a b in
    if c_in then
      let* subject := pushIntersection c d a b subject in
      Ok (subject, d)
    else Ok (subject, d).

(** The body of the outer loop, for the index [i]: the state is [subject]
    and [a]; [input] is the copy [subject.slice()]. *)
Definition clipEdge (clip : Points) (closed : bool) (st : Points * option Point)
    (i : nat) : result (Points * option Point) :=
  let '(subject, a) := st in
  let input := subject in
  let b := at_ clip (Z.of_nat i) in
  let m := (Z.of_nat (length input) - (if closed then 1 else 0))%Z in
  let c := at_ input (m - 1) in
  let* r := foldM (clipVertex a b) (take (Z.to_nat m) input) ([], c) in
  let subject := fst r in
  let subject := if closed then subject ++ [at_ subject 0] else subject in
  Ok (subject, b).

Definition polygonClip (clip subject : Points) : result Points :=
  let* closed := polygonClosed subject in
  let* clipClosed := polygonClosed clip in
  let n := (Z.of_nat (length clip) - (if clipClosed then 1 else 0))%Z in
  let a := at_ clip (n - 1) in
  let* r := foldM (clipEdge clip closed) (seq 0 (Z.to_nat n)) (subject, a) in
  Ok (fst r).

Definition IMAX : nat := 50.

Record WeightedVoronoi : Set :=
  { omega : list Point; sites : list Site; ethreshold : float }.

(** [constructor(omega, sites, ethreshold = 0.001)]; the literal is the
    binary64 value of [0.001]. *)
Definition constructor (omega : list Point) (sites : list Site)
    (ethreshold : option float) : WeightedVoronoi :=
  {| omega := omega;
     sites := sites;
     ethreshold := default 0x1.0624dd2f1a9fcp-10 ethreshold |}.

(** A loop [for (let i = 0; i < polygon.length; i++)] over the edges
    [p1 = polygon[i]], [p2 = polygon[(i + 1) % polygon.length]]. *)
Definition forEdges {T} (polygon : Points) (body : T -> Point -> Point -> T)
    (init : T) : result T :=
  foldM (fun acc i =>
           match at_ polygon (Z.of_nat i),
                 at_ polygon (Z.of_nat ((i + 1) mod length polygon)) with
           | Some p1, Some p2 => Ok (body acc p1 p2)
           | _, _ => Throw TypeError
           end)
        (seq 0 (length polygon)) init.

(** [polygon] may be [undefined] (a missing cell): [polygon.length] throws. *)
Definition computePolygonArea (polygon : option Points) : result float :=
  match polygon with
  | None => Throw TypeError
  | Some polygon =>
      let* area :=
        forEdges polygon
          (fun area p1 p2 => area + (fst p1 * snd p2 - fst p2 * snd p1)) 0 in
      Ok (abs area / 2)
  end.

Definition computeCentroid (polygon : option Points) : result Point :=
  let* area := computePolygonArea polygon in
  match polygon with
  | None => Throw TypeError
  | Some polygon =>
      let* centroid :=
        forEdges polygon
          (fun (acc : float * float) p1 p2 =>
             let factor := fst p1 * snd p2 - fst p2 * snd p1 in
             (fst acc + (fst p1 + fst p2) * factor,
              snd acc + (snd p1 + snd p2) * factor))
          (0, 0) in
      let scale := 1 / (6 * area) in
      Ok (fst centroid * scale, snd centroid * scale)
  end.

Definition distanceToLine (point p1 p2 : Point) : float :=
  let dx := fst p2 - fst p1 in
  let dy := snd p2 - snd p1 in
  let t := ((fst point - fst p1) * dx + (snd point - snd p1) * dy)
           / (sq dx + sq dy) in
  let closestPoint := (fst p1 + t * dx, snd p1 + t * dy) in
  let dx2 := fst point - fst closestPoint in
  let dy2 := snd point - snd closestPoint in
  sqrt (sq dx2 + sq dy2).

Definition distanceToClosestEdge (point : Point) (polygon : option Points)
  : result float :=
  match polygon with
  | None => Throw TypeError
  | Some polygon =>
      forEdges polygon
        (fun minDistance p1 p2 =>
           let distance := distanceToLine point p1 p2 in
           Math_min minDistance distance)
        infinity
  end.

Definition cellLength (cell : option Points) : result float :=
  match cell with
  | None => Throw TypeError
  | Some cell => Ok (numOfNat (length cell))
  end.

Definition adaptPositionsAndWeights (sites : list Site) (diagram : list Points)
  : result (list Site) :=
  mapM' (fun '(index, site) =>
           let cell := diagram !! index in
           let* centroid := computeCentroid cell in
           let* distanceToBoundary := distanceToClosestEdge centroid cell in
           let targetArea := 1 / numOfNat (length sites) in
           let* len := cellLength cell in
           let areaRatio := len / (Math_PI * sq distanceToBoundary) in
           let newWeight := weight site * (1 - targetArea / areaRatio) in
           Ok {| x := fst centroid; y := snd centroid; weight := newWeight |})
        (combine (seq 0 (length sites)) sites).

Definition calculateTotalError (sites : list Site) (diagram : list Points)
  : result float :=
  foldM (fun totalError i =>
           let cell := diagram !! i in
           let* area := computePolygonArea cell in
           let targetArea := 1 / numOfNat (length sites) in
           Ok (totalError + abs (area - targetArea)))
        (seq 0 (length sites)) 0.

Section WithHost.

(** [quickhull3d(points, { skipTriangulation })]: the faces as lists of
    point indices, or an exception. *)
Variable qh : list Vector3 -> bool -> result (list (list nat)).

(** The values [Math.random()] returns, in the order of the calls. *)
Variable random : nat -> float.

Definition computePowerDiagram (sites : list Site) (omega : list Point)
  : result (list Points) :=
  if (length sites <? 4)%nat then Ok []
  else
    let transformedSites : list Vector3 :=
      List.map (fun site => (x site, y site, sq (x site) + sq (y site) - weight site))
               sites in
    let* convexHull := qh transformedSites false in
    mapM' (fun face : list nat =>
             let vertices := List.map (fun index => transformedSites !! index) face in
             let* lowerEnvelopeFace :=
               mapM' (fun vertex : option Vector3 =>
                        match vertex with
                        | Some v => Ok (Some (fst (fst v), snd (fst v)))
                        | None => Throw TypeError
                        end)
                     vertices in
             polygonClip lowerEnvelopeFace (List.map Some omega))
          convexHull.

Definition initializeDiagram (this : WeightedVoronoi) : result (list Points) :=
  let initialSites :=
    List.map (fun k => {| x := random (2 * k) * 100;
                          y := random (2 * k + 1) * 100;
                          weight := 1 |})
             (seq 0 (length (sites this))) in
  computePowerDiagram initialSites (omega this).

(** The body of the loop of [compute] up to the test: the new diagram and
    its error. *)
Definition relaxOnce (this : WeightedVoronoi) (diagram : list Points)
  : result (list Points * float) :=
  let* adaptedSites := adaptPositionsAndWeights (sites this) diagram in
  let* diagram := computePowerDiagram adaptedSites (omega this) in
  let* error := calculateTotalError adaptedSites diagram in
  Ok (diagram, error).

(** [for (let i = 0; i < IMAX; i++)] with [remaining = IMAX - i]. *)
Fixpoint relax (this : WeightedVoronoi) (remaining : nat) (diagram : list Points)
  : result (list Points) :=
  match remaining with
  | O => Ok diagram
  | S remaining =>
      let* r := relaxOnce this diagram in
      if snd r <? ethreshold this then Ok (fst r)
      else relax this remaining (fst r)
  end.

Definition compute (this : WeightedVoronoi) : result (list Points) :=
  let* diagram := initializeDiagram this in
  relax this IMAX diagram.

(** [compute] with what it did: the number of turns of the loop that were
    started, the errors of the turns that got to the test, and the result. *)
Record Run : Set :=
  { iterations : nat; errors : list float; outcome : result (list Points) }.

Fixpoint relaxRun (this : WeightedVoronoi) (remaining : nat) (diagram : list Points)
  : Run :=
  match remaining with
  | O => {| iterations := 0; errors := []; outcome := Ok diagram |}
  | S remaining =>
      match relaxOnce this diagram with
      | Throw e => {| iterations := 1; errors := []; outcome := Throw e |}
      | Ok r =>
          if snd r <? ethreshold this
          then {| iterations := 1; errors := [snd r]; outcome := Ok (fst r) |}
          else
            let run := relaxRun this remaining (fst r) in
            {| iterations := S (iterations run);
               errors := snd r :: errors run;
               outcome := outcome run |}
      end
  end.

Definition computeRun (this : WeightedVoronoi) : Run :=
  match initializeDiagram this with
  | Throw e => {| iterations := 0; errors := []; outcome := Throw e |}
  | Ok diagram => relaxRun this IMAX diagram
  end.

End WithHost.

(** What [render] can throw: the [Error] of its own, or what [compute] and
    the loops over the cells throw. *)
Inductive thrown : Set :=
| Error (message : string)
| Raised (e : exn).

Section WithHostAndCanvas.

Variable qh : list Vector3 -> bool -> result (list (list nat)).
Variable random : nat -> float.

(** [for (const [x, y] of cell)]: destructuring [undefined] throws. *)
Definition drawCell (cell : Points) : Draw unit :=
  seqD [emit ctx_beginPath;
        forEachD (fun p : option Point =>
                    match p with
                    | Some p => emit (ctx_lineTo (fst p) (snd p))
                    | None => lift (Throw TypeError)
                    end)
                 cell;
        emit ctx_closePath;
        emit ctx_fill;
        emit (ctx_strokeStyle "blue");
        emit ctx_stroke].

Definition drawSite (site : Site) : Draw unit :=
  seqD [emit ctx_beginPath;
        emit (ctx_arc (x site) (y site) 2 0 (2 * Math_PI));
        emit ctx_fill].

(** [render(canvas)]: the calls made on the context, and the exception if
    one ended the call. *)
Definition render (this : WeightedVoronoi) (canvas : HTMLCanvasElement)
  : list DrawOp * option thrown :=
  if negb (getContext2d canvas)
  then ([], Some (Error "Failed to get 2D rendering context"))
  else
    let width := width canvas in
    let height := height canvas in
    let scale := Math_min width height / 200 in
    let '(ops, r) :=
      seqD [emit (ctx_clearRect 0 0 width height);
            emit ctx_save;
            emit (ctx_translate (width / 2) (height / 2));
            emit (ctx_scale scale (- scale));
            emit ctx_beginPath;
            forEachD (fun p : Point => emit (ctx_lineTo (fst p) (snd p))) (omega this);
            emit ctx_closePath;
            emit (ctx_strokeStyle "black");
            emit ctx_stroke;
            emit (ctx_fillStyle "red");
            forEachD drawSite (sites this);
            bindD (lift (compute qh random this)) (fun diagram =>
              seqD [emit (ctx_fillStyle "rgba(0, 0, 255, 0.2)");
                    forEachD drawCell diagram]);
            emit ctx_restore] in
    (ops, match r with
          | Ok _ => None
          | Throw e => Some (Raised e)
          end).

End WithHostAndCanvas.

End WeightedVoronoi.

(** * The vocabulary of the claims, and inputs to run the code on *)

Module CanvasSpec.

(** A canvas of 400 by 300 with a 2D context; the calls that draw a disc
    and the call that pops the saved state. *)
Definition canvas2d : HTMLCanvasElement :=
  {| width := 400; height := 300; getContext2d := true |}.

Definition isArc (op : DrawOp) : bool :=
  match op with ctx_arc _ _ _ _ _ => true | _ => false end.

Definition isRestore (op : DrawOp) : bool :=
  match op with ctx_restore => true | _ => false end.

End CanvasSpec.
Import CanvasSpec.

Module PowerDiagramSpec.

Import PowerDiagram.

(** The claim's words for the normal: the vector from [p] to [q] and the
    cross product of two vectors. *)
Definition vectorFromTo (p q : Point3D) : Point3D :=
  mkPoint3D (x q - x p) (y q - y p) (z q - z p).

Definition crossProduct (v w : Point3D) : Point3D :=
  mkPoint3D (y v * z w - z v * y w) (z v * x w - x v * z w) (x v * y w - y v * x w).

(** What the hull adapter promises for [n] points: every face lists at
    least three indices, all below [n]. *)
Definition hullOk (n : nat) (hull : list (list nat)) : bool :=
  forallb (fun f : list nat => (3 <=? length f)%nat && forallb (fun i => (i <? n)%nat) f) hull.

(** A face with its first three vertices, and with all of them. *)
Definition hasTriangle (f : Face) : bool :=
  match f with
  | Some _ :: Some _ :: Some _ :: _ => true
  | _ => false
  end.

Definition faceOk (f : Face) : bool :=
  hasTriangle f && forallb (fun p : option Point3D => bool_decide (is_Some p)) f.

(** The argument of the hull routine, [dualPoints.map(p => [p.x, p.y, p.z])]. *)
Definition pointsOfSites (sites : list Site) : list (float * float * float) :=
  List.map (fun p : Point3D => (x p, y p, z p)) (dualPointsOf sites).

(** Two inputs of four sites of weight 1.  The lifted points of each are
    the corners of a tetrahedron, whose four faces [tetrahedronHull] lists
    with the normal of the first three vertices pointing outwards.  In
    [nearlyAlignedSites] the first three sites are one unit in the last
    place from a vertical line: [1 + 2^-52], [1 + 2^-51] and [2 - 2^-50].
    In [hiddenSites] the weights of the outer sites leave nothing to the
    inner one: its lifted point is above the triangle of the others, and
    the hull is [hiddenHull]. *)
Definition exampleSites : list Site :=
  [mkSite 0 0 1; mkSite 4 0 1; mkSite 0 4 1; mkSite 1 1 1].

Definition nearlyAlignedSites : list Site :=
  [mkSite 1 0 1;
   mkSite 0x1.0000000000001p+0 1 1;
   mkSite 0x1.0000000000002p+0 0x1.ffffffffffffcp+0 1;
   mkSite 0 1 1].

Definition hiddenSites : list Site :=
  [mkSite 0 0 100; mkSite 4 0 100; mkSite 0 4 100; mkSite 1 1 0].

Definition tetrahedronHull : list (list nat) :=
  [[0; 1; 2]; [0; 3; 1]; [0; 2; 3]; [1; 3; 2]]%nat.

Definition hiddenHull : list (list nat) :=
  [[0; 2; 1]; [0; 1; 3]; [1; 2; 3]; [2; 0; 3]]%nat.

Definition qhHidden (points : list (float * float * float))
  : result (list (list nat)) :=
  if (length points =? 4)%nat then Ok hiddenHull else Throw HullError.

Definition qhTetrahedron (points : list (float * float * float))
  : result (list (list nat)) :=
  if (length points =? 4)%nat then Ok tetrahedronHull else Throw HullError.

(** [true] when the normal of the face [i j k] points away from the point
    [l] of [points]. *)
Definition normalAwayFrom (pi pj pk pl : Point3D) : bool :=
  let n := computeNormal pi pj pk in
  x n * (x pl - x pi) + y n * (y pl - y pi) + z n * (z pl - z pi) <? 0.

Definition pointsAwayFrom (points : list Point3D) (i j k l : nat) : bool :=
  match points !! i, points !! j, points !! k, points !! l with
  | Some pi, Some pj, Some pk, Some pl => normalAwayFrom pi pj pk pl
  | _, _, _, _ => false
  end.

(** A list of triangles is the hull of [points] as far as the numbers
    tell: the normal of each face points away from every other point. *)
Definition outwards (points : list Point3D) (hull : list (list nat)) : bool :=
  forallb (fun f : list nat =>
             match f with
             | [i; j; k] =>
                 forallb (fun l =>
                            (l =? i)%nat || (l =? j)%nat || (l =? k)%nat
                            || pointsAwayFrom points i j k l)
                         (seq 0 (length points))
             | _ => false
             end)
          hull.

(** Two sites at one position with different weights; the four sites of
    [exampleSites] with a fifth that has a [NaN] coordinate, which the hull
    of the other four leaves out; and hull routines that answer with a face
    of two indices and with an index that is no site's. *)
Definition twinSites : list Site :=
  [mkSite 0 0 1; mkSite 4 0 1; mkSite 0 4 1; mkSite 0 0 3].

Definition nanFiveSites : list Site := exampleSites ++ [mkSite nan 1 1].

Definition qhFourOfFive (points : list (float * float * float))
  : result (list (list nat)) :=
  if (length points =? 5)%nat then Ok tetrahedronHull else Throw HullError.

Definition qhShortFace (points : list (float * float * float))
  : result (list (list nat)) := Ok [[0; 1; 2]; [0; 1]]%nat.

Definition qhBadIndex (points : list (float * float * float))
  : result (list (list nat)) := Ok [[0; 1; 2]; [0; 7; 1]]%nat.

(** A bounding square. *)
Definition boundingSquare : list Point2D :=
  [{| x := -5; y := -5 |}; {| x := 5; y := -5 |}; {| x := 5; y := 5 |};
   {| x := -5; y := 5 |}].

(** A site of negative weight. *)
Definition negativeSite : Site := mkSite 3 4 (-2).

(** Three sites, a hull routine that answers with their one triangle and
    one that refuses. *)
Definition triangleSites : list Site := [mkSite 0 0 1; mkSite 4 0 1; mkSite 0 4 1].

Definition qhOneTriangle (points : list (float * float * float))
  : result (list (list nat)) := Ok [[0; 2; 1]]%nat.

Definition qhRefuses (points : list (float * float * float))
  : result (list (list nat)) := Throw HullError.

End PowerDiagramSpec.

Module PolyClipSpec.

Import PowerDiagram PolyClip.

(** Membership in a convex polygon given counter-clockwise: on the left of,
    or on, every directed edge. *)
Definition leftOrOn (edgeStart edgeEnd p : Point2D) : bool :=
  (y edgeEnd - y edgeStart) * (x p - x edgeStart)
  <=? (x edgeEnd - x edgeStart) * (y p - y edgeStart).

Definition within (clip : list Point2D) (p : Point2D) : bool :=
  forallb (fun i =>
             match clip !! i, clip !! ((i + 1) mod length clip)%nat with
             | Some edgeStart, Some edgeEnd => leftOrOn edgeStart edgeEnd p
             | _, _ => true
             end)
          (seq 0 (length clip)).

(** The object literal [{ x: vx, y: vy }]. *)
Definition P (vx vy : float) : Point2D := {| x := vx; y := vy |}.

(** Scenario C of the specification: a triangle and a box given
    counter-clockwise, in a store that holds the two arrays. *)
Definition triangleC : list Point2D := [P 0 0; P 10 0; P 5 10].
Definition boxC : list Point2D := [P 2 2; P 8 2; P 8 8; P 2 8].
Definition storeC : store := <[1%nat := boxC]> (<[0%nat := triangleC]> ∅).

(** A triangle with an edge on the line of the last edge of the clip
    triangle, which is given counter-clockwise. *)
Definition subjectP : list Point2D := [P 0.2 0.3; P 0.8 0.6; P 1 1.1].
Definition clipP : list Point2D := [P 1.1 1.2; P 0.1 1.1; P 0.1 0.2].
Definition storeP : store := <[1%nat := clipP]> (<[0%nat := subjectP]> ∅).

(** A store whose second array is empty. *)
Definition storeE : store := <[1%nat := []]> (<[0%nat := triangleC]> ∅).

(** A vertex strictly inside every edge of the clipping boundary, as
    [inside] tells. *)
Definition insideAll (clippingBoundary : list Point2D) (p : Point2D) : bool :=
  forallb (fun i =>
             match clippingBoundary !! i,
                   clippingBoundary !! ((i + 1) mod length clippingBoundary)%nat with
             | Some edgeStart, Some edgeEnd => inside p edgeStart edgeEnd
             | _, _ => true
             end)
          (seq 0 (length clippingBoundary)).

(** A square inside the box of scenario C, and a store with the two. *)
Definition innerSquare : list Point2D := [P 3 3; P 7 3; P 7 7; P 3 7].
Definition storeS : store := <[1%nat := boxC]> (<[0%nat := innerSquare]> ∅).

(** A triangle below the box, and a store with the two. *)
Definition lowTriangle : list Point2D := [P 0 0; P 10 0; P 5 1].
Definition storeL : store := <[1%nat := boxC]> (<[0%nat := lowTriangle]> ∅).

(** A boundary of one vertex. *)
Definition storeV : store := <[1%nat := [P 2 2]]> (<[0%nat := triangleC]> ∅).

End PolyClipSpec.

Module WeightedVoronoiSpec.

Import WeightedVoronoi.

(** Three sites of weight 1. *)
Definition threeSites : list Site :=
  [{| x := 0; y := 0; weight := 1 |};
   {| x := 10; y := 0; weight := 1 |};
   {| x := 0; y := 10; weight := 1 |}].

Definition squareOmega : list Point := [(-5, -5); (15, -5); (15, 15); (-5, 15)].

(** Four sites, the faces of a tetrahedron for hull, and [Math.random]
    returning a half every time. *)
Definition fourSites : list Site :=
  [{| x := 0; y := 0; weight := 1 |};
   {| x := 10; y := 0; weight := 1 |};
   {| x := 0; y := 10; weight := 1 |};
   {| x := 3; y := 3; weight := 1 |}].

Definition qhTetrahedron (points : list Vector3) (skipTriangulation : bool)
  : result (list (list nat)) :=
  Ok [[0; 1; 2]; [0; 3; 1]; [0; 2; 3]; [1; 3; 2]]%nat.

Definition randomHalf (k : nat) : float := 0.5.

(** Scenario C of the specification for [polygonClip], which wants its clip
    polygon clockwise. *)
Definition triangleC : Points := [Some (0, 0); Some (10, 0); Some (5, 10)].
Definition boxC : Points := [Some (2, 8); Some (8, 8); Some (8, 2); Some (2, 2)].

(** A hull routine that refuses every input. *)
Definition qhThrows (points : list Vector3) (skipTriangulation : bool)
  : result (list (list nat)) := Throw HullError.

(** An array that holds points only, no [undefined]. *)
Definition allPoints (l : Points) : Prop := Forall (fun p => p <> None) l.

(** The points handed to the hull routine by the class's own
    [computePowerDiagram]. *)
Definition liftedSites (sites : list Site) : list Vector3 :=
  List.map (fun site => (x site, y site, sq (x site) + sq (y site) - weight site))
           sites.

(** What the hull adapter promises for [n] points, here: each face has a
    vertex, and its indices are below [n]. *)
Definition hullFacesOk (n : nat) (hull : list (list nat)) : Prop :=
  Forall (fun face : list nat => face <> [] /\ Forall (fun i => (i < n)%nat) face) hull.

(** The clip polygon of a hull face: the positions of the sites at its
    indices, in the order of the face. *)
Definition facePoints (sites : list Site) (face : list nat) : list Point :=
  omap (fun index => (fun site => (x site, y site)) <$> sites !! index) face.

(** Three points on a line. *)
Definition flatTriangle : Points := [Some (0, 0); Some (1, 1); Some (2, 2)].

(** A quadrilateral with a vertex listed twice in a row. *)
Definition repeatedVertex : list Point := [(0, 0); (4, 0); (4, 0); (0, 4)].

End WeightedVoronoiSpec.

(** * Properties *)

(** ** Numbers and the exception monad *)

Module JsNumFacts.

(** A number that compares equal to zero is one of the two zeros. *)
Lemma eqb_zero_spec (v : float) :
  (v =? 0) = true -> exists s, Prim2SF v = S754_zero s.
Proof.
  rewrite FloatAxioms.eqb_spec.
  change (Prim2SF 0) with (S754_zero false).
  unfold SFeqb. destruct (Prim2SF v) as [s| | |s m e]; simpl.
  - intros _. now exists s.
  - destruct s; discriminate.
  - discriminate.
  - destruct s; discriminate.
Qed.

(** [v == 0] excludes [v < 0]. *)
Lemma eqb_zero_not_ltb (v : float) : (v =? 0) = true -> (v <? 0) = false.
Proof.
  rewrite FloatAxioms.eqb_spec, ltb_spec. unfold SFeqb, SFltb.
  destruct (SFcompare _ _) as [[]|]; congruence.
Qed.

(** Finiteness read off the specification value. *)
Lemma isFinite_spec (v : float) :
  isFinite v = match Prim2SF v with
               | S754_nan | S754_infinity _ => false
               | _ => true
               end.
Proof.
  unfold isFinite, is_finite, is_nan, is_infinity.
  rewrite !FloatAxioms.eqb_spec, abs_spec.
  change (Prim2SF infinity) with (S754_infinity false).
  destruct (Prim2SF v) as [s|s| |s m e]; simpl; try reflexivity.
  - destruct s; reflexivity.
  - unfold SFeqb, SFcompare.
    destruct s; rewrite Z.compare_refl, Pos.compare_cont_refl; reflexivity.
Qed.

(** Dividing by a zero never gives a finite number, and halving the
    quotient does not repair it. *)
Lemma div_zero_not_finite (n g : float) :
  (g =? 0) = true -> isFinite (n / g) = false.
Proof.
  intros Hg. apply eqb_zero_spec in Hg as [s Hs].
  rewrite isFinite_spec, div_spec, Hs.
  destruct (Prim2SF n); reflexivity.
Qed.

Lemma half_not_finite (v : float) :
  isFinite v = false -> isFinite (v / 2) = false.
Proof.
  rewrite !isFinite_spec, div_spec.
  change (Prim2SF 2) with (S754_finite false 4503599627370496 (-51)).
  destruct (Prim2SF v); simpl; congruence.
Qed.

(** A non-finite factor or term makes the product or the sum non-finite. *)
Lemma mul_not_finite_l (u v : float) :
  isFinite u = false -> isFinite (u * v) = false.
Proof.
  rewrite !isFinite_spec, mul_spec.
  destruct (Prim2SF u), (Prim2SF v); simpl; congruence.
Qed.

Lemma add_not_finite_r (u v : float) :
  isFinite v = false -> isFinite (u + v) = false.
Proof.
  rewrite !isFinite_spec, add_spec.
  destruct (Prim2SF u) as [| s | |]; destruct (Prim2SF v) as [| s' | |];
    simpl; try congruence.
  destruct s, s'; reflexivity.
Qed.

(** [Math.sqrt] of a negative number is [NaN], and [NaN] stays [NaN] once
    it is squared and subtracted. *)
Lemma spec_nan (v : float) : Prim2SF v = S754_nan -> v = nan.
Proof. intros H. rewrite <- (SF2Prim_Prim2SF v), H. reflexivity. Qed.

Lemma sqrt_negative (w : float) : (w <? 0) = true -> sqrt w = nan.
Proof.
  rewrite ltb_spec. change (Prim2SF 0) with (S754_zero false).
  intros H. apply spec_nan. rewrite sqrt_spec.
  destruct (Prim2SF w) as [s|s| |s m e]; try (destruct s); try discriminate;
    reflexivity.
Qed.

Lemma sub_nan (v : float) : v - nan = nan.
Proof.
  apply spec_nan. rewrite sub_spec. change (Prim2SF nan) with S754_nan.
  destruct (Prim2SF v); reflexivity.
Qed.

(** Signs: what is never below zero. *)
Lemma ltb_zero_spec (v : float) :
  (v <? 0) = match Prim2SF v with
             | S754_infinity s | S754_finite s _ _ => s
             | _ => false
             end.
Proof.
  rewrite ltb_spec. change (Prim2SF 0) with (S754_zero false).
  destruct (Prim2SF v) as [s|s| |s m e]; try destruct s; reflexivity.
Qed.

Lemma binary_round_aux_sign s m e l :
  match binary_round_aux prec emax s m e l with
  | S754_zero s' | S754_infinity s' | S754_finite s' _ _ => s' = s
  | S754_nan => True
  end.
Proof.
  unfold binary_round_aux.
  destruct (shr_fexp prec emax m e l) as [mrs' e'].
  destruct (shr_fexp prec emax _ e' loc_Exact) as [mrs'' e''].
  destruct (shr_m mrs''); [reflexivity| |exact I].
  destruct (Z.leb _ _); reflexivity.
Qed.

Lemma binary_round_sign s m e :
  match binary_round prec emax s m e with
  | S754_zero s' | S754_infinity s' | S754_finite s' _ _ => s' = s
  | S754_nan => True
  end.
Proof.
  unfold binary_round. destruct (shl_align _ _ _) as [mz ez].
  apply binary_round_aux_sign.
Qed.

Lemma abs_not_negative (v : float) : (abs v <? 0) = false.
Proof.
  rewrite ltb_zero_spec, abs_spec. destruct (Prim2SF v); reflexivity.
Qed.

Lemma sqrt_not_negative (v : float) : (sqrt v <? 0) = false.
Proof.
  rewrite ltb_zero_spec, sqrt_spec.
  destruct (Prim2SF v) as [s|s| |s m e]; try destruct s; try reflexivity.
  unfold SF64sqrt, SFsqrt. destruct (SFsqrt_core_binary _ _ _ _) as [[mz ez] lz].
  pose proof (binary_round_aux_sign false mz ez lz) as H.
  destruct (binary_round_aux _ _ _ _ _ _); congruence.
Qed.

Lemma add_not_negative (u v : float) :
  (u <? 0) = false -> (v <? 0) = false -> (u + v <? 0) = false.
Proof.
  rewrite !ltb_zero_spec, add_spec. unfold SF64add, SFadd.
  destruct (Prim2SF u) as [s|s| |s m e]; destruct (Prim2SF v) as [s'|s'| |s' m' e'];
    intros Hu Hv; subst; try reflexivity; try (destruct s; reflexivity);
    try (destruct s'; reflexivity); try (destruct s, s'; reflexivity).
  simpl.
  pose proof (binary_round_sign false
    (fst (shl_align m e (Z.min e e')) + fst (shl_align m' e' (Z.min e e')))
    (Z.min e e')) as H.
  unfold binary_normalize.
  destruct (binary_round _ _ _ _ _); congruence.
Qed.

Lemma half_not_negative (v : float) : (v <? 0) = false -> (v / 2 <? 0) = false.
Proof.
  rewrite !ltb_zero_spec, div_spec.
  change (Prim2SF 2) with (S754_finite false 4503599627370496 (-51)).
  unfold SF64div, SFdiv.
  destruct (Prim2SF v) as [s|s| |s m e]; intros H; subst; try reflexivity.
  destruct (SFdiv_core_binary _ _ _ _ _ _) as [[mz ez] lz].
  pose proof (binary_round_aux_sign (xorb false false) mz ez lz) as H.
  destruct (binary_round_aux _ _ _ _ _ _); simpl in H; congruence.
Qed.

Lemma not_negative_not_below (e t : float) :
  (e <? 0) = false -> (0 <? t) = false -> (e <? t) = false.
Proof.
  rewrite ltb_zero_spec, !ltb_spec. change (Prim2SF 0) with (S754_zero false).
  unfold SFltb.
  destruct (Prim2SF e) as [s|s| |s m x]; destruct (Prim2SF t) as [s'|s'| |s' m' x'];
    intros He Ht; subst; simpl in *; try reflexivity; try discriminate;
    try (destruct s'; simpl in *; try discriminate; reflexivity);
    try (destruct s; simpl in *; try discriminate; reflexivity).
Qed.

(** [v - v] is a zero or [NaN], so it is falsy. *)
Lemma sub_diag_spec (v : float) :
  match Prim2SF (v - v) with
  | S754_zero _ | S754_nan => True
  | _ => False
  end.
Proof.
  rewrite sub_spec. unfold SF64sub, SFsub.
  destruct (Prim2SF v) as [s|s| |s m e]; try (destruct s; exact I); try exact I.
  rewrite Z.sub_diag. exact I.
Qed.

Lemma truthy_sub_diag (v : float) : truthy (v - v) = false.
Proof.
  unfold truthy, is_nan. rewrite !FloatAxioms.eqb_spec.
  change (Prim2SF 0) with (S754_zero false).
  pose proof (sub_diag_spec v) as H.
  destruct (Prim2SF (v - v)); try contradiction; reflexivity.
Qed.

(** A product with a zero or [NaN] factor is a zero or [NaN], and no such
    value is below another. *)
Lemma mul_zero_or_nan_l (u v : float) :
  match Prim2SF u with S754_zero _ | S754_nan => True | _ => False end ->
  match Prim2SF (u * v) with S754_zero _ | S754_nan => True | _ => False end.
Proof.
  rewrite mul_spec. unfold SF64mul, SFmul.
  destruct (Prim2SF u) as [s| s| |s m e]; intros H; try contradiction;
    destruct (Prim2SF v) as [s'| s'| |s' m' e']; exact I.
Qed.

Lemma ltb_zero_or_nan (u v : float) :
  match Prim2SF u with S754_zero _ | S754_nan => True | _ => False end ->
  match Prim2SF v with S754_zero _ | S754_nan => True | _ => False end ->
  (u <? v) = false.
Proof.
  rewrite ltb_spec. unfold SFltb, SFcompare.
  destruct (Prim2SF u) as [s| s| |s m e]; intros H; try contradiction;
    destruct (Prim2SF v) as [s'| s'| |s' m' e']; intros H'; try contradiction;
    reflexivity.
Qed.

(** [NaN] is equal to nothing, and a sum with [NaN] is [NaN]. *)
Lemma is_nan_spec (v : float) : is_nan v = true -> Prim2SF v = S754_nan.
Proof.
  unfold is_nan. rewrite FloatAxioms.eqb_spec. unfold SFeqb, SFcompare.
  destruct (Prim2SF v) as [s|s| |s m e]; try reflexivity.
  - destruct s; discriminate.
  - destruct s; discriminate.
  - destruct s; rewrite Z.compare_refl, Pos.compare_cont_refl; discriminate.
Qed.

Lemma eqb_nan_r (u v : float) : is_nan v = true -> (u =? v) = false.
Proof.
  intros H. rewrite FloatAxioms.eqb_spec, (is_nan_spec v H).
  unfold SFeqb, SFcompare. destruct (Prim2SF u); reflexivity.
Qed.

Lemma add_nan_r (v : float) : v + nan = nan.
Proof.
  apply spec_nan. rewrite add_spec. change (Prim2SF nan) with S754_nan.
  destruct (Prim2SF v); reflexivity.
Qed.

Lemma mul_not_finite_r (u v : float) :
  isFinite v = false -> isFinite (u * v) = false.
Proof.
  rewrite !isFinite_spec, mul_spec.
  destruct (Prim2SF u), (Prim2SF v); simpl; congruence.
Qed.

Lemma sub_not_finite_r (u v : float) :
  isFinite v = false -> isFinite (u - v) = false.
Proof.
  rewrite !isFinite_spec, sub_spec.
  destruct (Prim2SF u) as [| s | |]; destruct (Prim2SF v) as [| s' | |];
    simpl; try congruence; destruct s, s'; simpl; congruence.
Qed.

Lemma mul_six_zero (v : float) : (v =? 0) = true -> (6 * v =? 0) = true.
Proof.
  intros H. apply eqb_zero_spec in H as [s Hs].
  rewrite FloatAxioms.eqb_spec, mul_spec, Hs.
  destruct s; reflexivity.
Qed.

Lemma Math_min_not_negative (u v : float) :
  (u <? 0) = false -> (v <? 0) = false -> (Math_min u v <? 0) = false.
Proof.
  intros Hu Hv. unfold Math_min.
  destruct (is_nan u); [reflexivity|].
  destruct (is_nan v); [reflexivity|].
  destruct (u <? v); [exact Hu|].
  destruct (v <? u); [exact Hv|].
  destruct (get_sign u); assumption.
Qed.

(** Sums, products and quotients of zeros and [NaN]s. *)
Lemma mul_zero_or_nan_r (u v : float) :
  match Prim2SF v with S754_zero _ | S754_nan => True | _ => False end ->
  match Prim2SF (u * v) with S754_zero _ | S754_nan => True | _ => False end.
Proof.
  rewrite mul_spec. unfold SF64mul, SFmul.
  destruct (Prim2SF v) as [s| s| |s m e]; intros H; try contradiction;
    destruct (Prim2SF u) as [s'| s'| |s' m' e']; exact I.
Qed.

Lemma add_zero_or_nan (u v : float) :
  match Prim2SF u with S754_zero _ | S754_nan => True | _ => False end ->
  match Prim2SF v with S754_zero _ | S754_nan => True | _ => False end ->
  match Prim2SF (u + v) with S754_zero _ | S754_nan => True | _ => False end.
Proof.
  rewrite add_spec. unfold SF64add, SFadd.
  destruct (Prim2SF u) as [s| s| |s m e]; intros H; try contradiction;
    destruct (Prim2SF v) as [s'| s'| |s' m' e']; intros H'; try contradiction;
    try exact I.
  destruct s, s'; exact I.
Qed.

Lemma div_zero_or_nan (u v : float) :
  match Prim2SF u with S754_zero _ | S754_nan => True | _ => False end ->
  match Prim2SF v with S754_zero _ | S754_nan => True | _ => False end ->
  u / v = nan.
Proof.
  intros Hu Hv. apply spec_nan. rewrite div_spec. unfold SF64div, SFdiv.
  destruct (Prim2SF u) as [s| s| |s m e]; try contradiction;
    destruct (Prim2SF v) as [s'| s'| |s' m' e']; try contradiction; reflexivity.
Qed.

Lemma mul_nan_l (v : float) : nan * v = nan.
Proof.
  apply spec_nan. rewrite mul_spec. change (Prim2SF nan) with S754_nan. reflexivity.
Qed.

Lemma Math_min_nan_r (v : float) : Math_min v nan = nan.
Proof. unfold Math_min. now destruct (is_nan v). Qed.

End JsNumFacts.
Import JsNumFacts.

Lemma mapM'_length {A B} (f : A -> result B) (l : list A) (r : list B) :
  mapM' f l = Ok r -> length r = length l.
Proof.
  revert r. induction l as [|v l IH]; simpl; intros r H.
  - now inversion H.
  - destruct (f v); [|discriminate]. simpl in H.
    destruct (mapM' f l) eqn:E; [|discriminate].
    inversion H; subst. simpl. now rewrite (IH _ eq_refl).
Qed.

Lemma mapM'_lookup {A B} (f : A -> result B) (l : list A) (r : list B) i v :
  mapM' f l = Ok r -> l !! i = Some v ->
  exists w, r !! i = Some w /\ f v = Ok w.
Proof.
  revert r i. induction l as [|u l IH]; simpl; intros r i H Hi.
  - discriminate.
  - destruct (f u) eqn:Eu; [|discriminate]. simpl in H.
    destruct (mapM' f l) eqn:E; [|discriminate].
    inversion H; subst. destruct i as [|i]; simpl in *.
    + inversion Hi; subst. eauto.
    + eapply IH; eauto.
Qed.

Lemma filterM_sound {A} (p : A -> result bool) (l r : list A) :
  filterM p l = Ok r -> forall v, In v r <-> In v l /\ p v = Ok true.
Proof.
  revert r. induction l as [|u l IH]; simpl; intros r H v.
  - inversion H; subst. simpl. tauto.
  - destruct (p u) as [keep|] eqn:Eu; [|discriminate]. simpl in H.
    destruct (filterM p l) as [r'|] eqn:E; [|discriminate]. simpl in H.
    inversion H; subst; clear H. specialize (IH _ eq_refl v).
    destruct keep; simpl; rewrite IH.
    + split.
      * intros [->|[? ?]]; auto.
      * intros [[->|?] ?]; auto.
    + split.
      * intros [? ?]; auto.
      * intros [[->|?] ?]; [congruence|auto].
Qed.

Lemma filterM_total {A} (p : A -> result bool) (l : list A) :
  Forall (fun v => exists keep, p v = Ok keep) l -> exists r, filterM p l = Ok r.
Proof.
  induction 1 as [|v l [keep Hv] _ [r IH]]; simpl; [eauto|].
  rewrite Hv, IH. simpl. eauto.
Qed.

Lemma mapM'_total {A B} (f : A -> result B) (l : list A) :
  Forall (fun v => exists w, f v = Ok w) l -> exists r, mapM' f l = Ok r.
Proof.
  induction 1 as [|v l [w Hv] _ [r IH]]; simpl; [eauto|].
  rewrite Hv, IH. simpl. eauto.
Qed.

Lemma mapM'_In {A B} (f : A -> result B) (l : list A) (r : list B) v :
  mapM' f l = Ok r -> In v l -> exists w, In w r /\ f v = Ok w.
Proof.
  revert r. induction l as [|u l IH]; simpl; intros r H Hv; [tauto|].
  destruct (f u) eqn:Eu; [|discriminate]. simpl in H.
  destruct (mapM' f l) eqn:E; [|discriminate].
  inversion H; subst. destruct Hv as [->|Hv].
  - eexists; split; [left; reflexivity|assumption].
  - destruct (IH _ eq_refl Hv) as (w & ? & ?). exists w. split; [now right|assumption].
Qed.

(** More on the loops: what they throw, what they keep, and the array
    [l.map((v, index) => ...)] runs over. *)
Lemma mapM'_ext {A B} (f g : A -> result B) (l : list A) :
  (forall v, In v l -> f v = g v) -> mapM' f l = mapM' g l.
Proof.
  induction l as [|v l IH]; simpl; intros H; [reflexivity|].
  rewrite (H v) by now left. rewrite IH; [reflexivity|].
  intros u Hu. apply H. now right.
Qed.

Lemma mapM'_throws {A B} (f : A -> result B) (l : list A) (v : A) :
  (forall u e, f u = Throw e -> e = TypeError) ->
  In v l -> f v = Throw TypeError -> mapM' f l = Throw TypeError.
Proof.
  intros Hf. induction l as [|u l IH]; simpl; intros Hin Hv; [tauto|].
  destruct (f u) as [w|e] eqn:Eu; simpl.
  - destruct Hin as [->|Hin]; [congruence|]. now rewrite IH.
  - now rewrite (Hf _ _ Eu).
Qed.

Lemma mapM'_TypeError {A B} (f : A -> result B) (l : list A) :
  (forall v e, f v = Throw e -> e = TypeError) ->
  forall e, mapM' f l = Throw e -> e = TypeError.
Proof.
  intros Hf. induction l as [|v l IH]; simpl; intros e H; [discriminate|].
  destruct (f v) as [w|e1] eqn:E1; simpl in H.
  - destruct (mapM' f l) as [r|e2]; simpl in H; [discriminate|].
    inversion H; subst. now apply IH.
  - inversion H; subst. now apply (Hf v).
Qed.

Lemma filterM_TypeError {A} (p : A -> result bool) (l : list A) :
  (forall v e, p v = Throw e -> e = TypeError) ->
  forall e, filterM p l = Throw e -> e = TypeError.
Proof.
  intros Hp. induction l as [|v l IH]; simpl; intros e H; [discriminate|].
  destruct (p v) as [keep|e1] eqn:E1; simpl in H.
  - destruct (filterM p l) as [r|e2]; simpl in H; [discriminate|].
    inversion H; subst. now apply IH.
  - inversion H; subst. now apply (Hp v).
Qed.

Lemma mapM'_Forall {A B} (P : B -> Prop) (f : A -> result B) (l : list A) :
  Forall (fun v => exists w, f v = Ok w /\ P w) l ->
  exists r, mapM' f l = Ok r /\ Forall P r /\ length r = length l.
Proof.
  induction 1 as [|v l [w [Hv Hw]] _ [r [IH [HP Hlen]]]]; simpl.
  - exists []. auto.
  - rewrite Hv, IH. simpl. exists (w :: r). repeat split; [now constructor|].
    simpl. now rewrite Hlen.
Qed.

Lemma foldM_ext {A S} (f g : S -> A -> result S) (l : list A) :
  (forall s v, In v l -> f s v = g s v) -> forall s, foldM f l s = foldM g l s.
Proof.
  induction l as [|v l IH]; simpl; intros H s; [reflexivity|].
  rewrite (H s v) by now left. destruct (g s v); simpl; [|reflexivity].
  apply IH. intros s' u Hu. apply H. now right.
Qed.

Lemma foldM_TypeError {A S} (f : S -> A -> result S) (l : list A) :
  (forall s v e, f s v = Throw e -> e = TypeError) ->
  forall s e, foldM f l s = Throw e -> e = TypeError.
Proof.
  intros Hf. induction l as [|v l IH]; simpl; intros s e H; [discriminate|].
  destruct (f s v) as [s'|e'] eqn:E; simpl in H.
  - now apply (IH s').
  - inversion H; subst. now apply (Hf _ _ _ E).
Qed.

Lemma foldM_throws {A S} (f : S -> A -> result S) (l : list A) (v : A) :
  (forall s u e, f s u = Throw e -> e = TypeError) ->
  In v l -> (forall s, f s v = Throw TypeError) ->
  forall s, foldM f l s = Throw TypeError.
Proof.
  intros Hf. induction l as [|u l IH]; simpl; intros Hin Hv s; [tauto|].
  destruct (f s u) as [s'|e] eqn:Eu; simpl.
  - destruct Hin as [->|Hin]; [rewrite Hv in Eu; discriminate|]. now apply IH.
  - now rewrite (Hf _ _ _ Eu).
Qed.

Lemma foldM_invariant {A S} (P : S -> Prop) (f : S -> A -> result S) (l : list A) :
  (forall s v s', P s -> f s v = Ok s' -> P s') ->
  forall s r, P s -> foldM f l s = Ok r -> P r.
Proof.
  intros Hf. induction l as [|v l IH]; simpl; intros s r Hs H.
  - inversion H; now subst.
  - destruct (f s v) as [s'|] eqn:E; [|discriminate]. simpl in H.
    apply (IH s' r); [now apply (Hf s v)|exact H].
Qed.

Lemma lookup_combine_seq {A} (l : list A) :
  forall s i v, l !! i = Some v ->
                combine (seq s (length l)) l !! i = Some ((s + i)%nat, v).
Proof.
  induction l as [|u l IH]; intros s i v H; [discriminate|].
  destruct i as [|i]; simpl in *.
  - inversion H; subst. now rewrite Nat.add_0_r.
  - rewrite (IH (S s) i v H). f_equal. f_equal. lia.
Qed.

Lemma In_combine_seq {A} (l : list A) i v :
  l !! i = Some v -> In (i, v) (combine (seq 0 (length l)) l).
Proof.
  intros H. apply (lookup_combine_seq l 0) in H. simpl in H.
  apply list_elem_of_In. eapply list_elem_of_lookup_2. exact H.
Qed.

Lemma combine_seq_index {A} (l : list A) i v :
  In (i, v) (combine (seq 0 (length l)) l) -> (i < length l)%nat.
Proof.
  intros H. apply in_combine_l in H. apply in_seq in H. lia.
Qed.

(** The drawing routines: a sequence stops at the first exception, and what
    was drawn before it stays drawn. *)
Lemma bindD_ok {A B} (m : Draw A) (k : A -> Draw B) a :
  snd m = Ok a -> bindD m k = (fst m ++ fst (k a), snd (k a)).
Proof.
  destruct m as [ops r]. simpl. intros ->. simpl. now destruct (k a).
Qed.

Lemma bindD_throw {A B} (m : Draw A) (k : A -> Draw B) e :
  snd m = Throw e -> bindD m k = (fst m, Throw e).
Proof. destruct m as [ops r]. simpl. now intros ->. Qed.

Lemma bindD_lift_ok {A B} (a : A) (k : A -> Draw B) : bindD (lift (Ok a)) k = k a.
Proof. unfold lift, bindD. now destruct (k a). Qed.

Lemma seqD_cons_ok (step : Draw unit) (steps : list (Draw unit)) :
  snd step = Ok tt ->
  seqD (step :: steps) = (fst step ++ fst (seqD steps), snd (seqD steps)).
Proof. intros H. cbn [seqD]. now rewrite (bindD_ok _ _ tt H). Qed.

Lemma seqD_cons_throw (step : Draw unit) (steps : list (Draw unit)) e :
  snd step = Throw e -> seqD (step :: steps) = (fst step, Throw e).
Proof. intros H. cbn [seqD]. now rewrite (bindD_throw _ _ e H). Qed.

Lemma seqD_ok (steps : list (Draw unit)) :
  Forall (fun step => snd step = Ok tt) steps ->
  seqD steps = (concat (List.map fst steps), Ok tt).
Proof.
  induction 1 as [|step steps Hstep _ IH]; [reflexivity|].
  rewrite (seqD_cons_ok _ _ Hstep), IH. reflexivity.
Qed.

Lemma seqD_Forall (P : DrawOp -> Prop) (steps : list (Draw unit)) :
  Forall (fun step => Forall P (fst step)) steps -> Forall P (fst (seqD steps)).
Proof.
  induction 1 as [|step steps Hstep _ IH]; [constructor|].
  destruct (snd step) as [[]|e] eqn:E.
  - rewrite (seqD_cons_ok _ _ E). simpl. apply Forall_app. auto.
  - rewrite (seqD_cons_throw _ _ _ E). exact Hstep.
Qed.

Lemma seqD_TypeError (steps : list (Draw unit)) :
  Forall (fun step => forall e, snd step = Throw e -> e = TypeError) steps ->
  forall e, snd (seqD steps) = Throw e -> e = TypeError.
Proof.
  induction 1 as [|step steps Hstep _ IH]; intros e; [discriminate|].
  destruct (snd step) as [[]|e'] eqn:E.
  - rewrite (seqD_cons_ok _ _ E). simpl. apply IH.
  - rewrite (seqD_cons_throw _ _ _ E). simpl. intros H. inversion H; subst. auto.
Qed.

(** A sequence with a step that throws a [TypeError], after steps that throw
    nothing else: the sequence throws it, having made the calls of the steps
    up to that one at most. *)
Lemma seqD_stops (P : DrawOp -> Prop) (pre : list (Draw unit)) (step : Draw unit)
    (post : list (Draw unit)) :
  Forall (fun t => Forall P (fst t) /\ forall e, snd t = Throw e -> e = TypeError) pre ->
  Forall P (fst step) ->
  snd step = Throw TypeError ->
  snd (seqD (pre ++ step :: post)) = Throw TypeError /\
  Forall P (fst (seqD (pre ++ step :: post))).
Proof.
  intros Hpre Hstep Hthrow.
  induction Hpre as [|t pre [Ht He] _ IH]; cbn [app].
  - rewrite (seqD_cons_throw _ _ _ Hthrow). auto.
  - destruct (snd t) as [[]|e] eqn:E.
    + rewrite (seqD_cons_ok _ _ E). simpl. destruct IH as [IH1 IH2].
      split; [exact IH1|]. apply Forall_app. auto.
    + rewrite (seqD_cons_throw _ _ _ E). simpl. rewrite (He e eq_refl). auto.
Qed.

Lemma forEachD_seqD {A} (f : A -> Draw unit) (l : list A) :
  forEachD f l = seqD (List.map f l).
Proof. induction l as [|v l IH]; simpl; [reflexivity|]. now rewrite IH. Qed.

Lemma forEachD_ok {A} (f : A -> Draw unit) (l : list A) :
  (forall v, In v l -> snd (f v) = Ok tt) ->
  forEachD f l = (flat_map (fun v => fst (f v)) l, Ok tt).
Proof.
  intros H. rewrite forEachD_seqD, seqD_ok.
  - now rewrite map_map, flat_map_concat_map.
  - apply List.Forall_forall. intros step Hstep.
    apply in_map_iff in Hstep as [v [<- Hv]]. auto.
Qed.

Lemma forEachD_Forall {A} (P : DrawOp -> Prop) (f : A -> Draw unit) (l : list A) :
  (forall v, In v l -> Forall P (fst (f v))) -> Forall P (fst (forEachD f l)).
Proof.
  intros H. rewrite forEachD_seqD. apply seqD_Forall, List.Forall_forall.
  intros step Hstep. apply in_map_iff in Hstep as [v [<- Hv]]. auto.
Qed.

Lemma forEachD_TypeError {A} (f : A -> Draw unit) (l : list A) :
  (forall v e, In v l -> snd (f v) = Throw e -> e = TypeError) ->
  forall e, snd (forEachD f l) = Throw e -> e = TypeError.
Proof.
  intros H. rewrite forEachD_seqD. apply seqD_TypeError, List.Forall_forall.
  intros step Hstep. apply in_map_iff in Hstep as [v [<- Hv]]. eauto.
Qed.

Lemma forEachD_stops {A} (P : DrawOp -> Prop) (f : A -> Draw unit) (l : list A) (v : A) :
  (forall u, In u l -> Forall P (fst (f u))) ->
  (forall u e, In u l -> snd (f u) = Throw e -> e = TypeError) ->
  In v l -> snd (f v) = Throw TypeError ->
  snd (forEachD f l) = Throw TypeError /\ Forall P (fst (forEachD f l)).
Proof.
  intros HP HT Hin Hv. split; [|now apply forEachD_Forall].
  clear HP. induction l as [|u l IH]; [contradiction|]. cbn [forEachD].
  destruct (snd (f u)) as [[]|e] eqn:E.
  - rewrite (bindD_ok _ _ tt E). simpl.
    destruct Hin as [->|Hin]; [congruence|].
    apply IH; [|exact Hin]. intros w e Hw. apply HT. now right.
  - rewrite (bindD_throw _ _ e E). simpl.
    now rewrite (HT u e (or_introl eq_refl) E).
Qed.

Lemma filter_flat_map_one {A B} (P : B -> bool) (g : A -> list B) (h : A -> B)
    (l : list A) :
  (forall v, In v l -> List.filter P (g v) = [h v]) ->
  List.filter P (flat_map g l) = List.map h l.
Proof.
  induction l as [|v l IH]; simpl; intros H; [reflexivity|].
  rewrite List.filter_app, (H v) by now left.
  simpl. f_equal. apply IH. intros u Hu. apply H. now right.
Qed.

Lemma filter_flat_map_none {A B} (P : B -> bool) (g : A -> list B) (l : list A) :
  (forall v, In v l -> List.filter P (g v) = []) ->
  List.filter P (flat_map g l) = [].
Proof.
  induction l as [|v l IH]; simpl; intros H; [reflexivity|].
  rewrite List.filter_app, (H v) by now left.
  simpl. apply IH. intros u Hu. apply H. now right.
Qed.

Lemma seqD_app (pre post : list (Draw unit)) :
  seqD (pre ++ post) = bindD (seqD pre) (fun _ => seqD post).
Proof.
  induction pre as [|step pre IH]; cbn [app seqD].
  - simpl. now destruct (seqD post).
  - destruct step as [ops [[]|e]]; simpl; [|reflexivity].
    rewrite IH. destruct (seqD pre) as [ops' [[]|e']]; simpl; [|reflexivity].
    destruct (seqD post) as [ops'' r]. now rewrite app_assoc.
Qed.

(** ** The power diagram *)

Module PowerDiagramProps.

Import PowerDiagram PowerDiagramSpec.

Lemma computeNormal_crossProduct (p1 p2 p3 : Point3D) :
  computeNormal p1 p2 p3 = crossProduct (vectorFromTo p1 p2) (vectorFromTo p1 p3).
Proof. reflexivity. Qed.

Lemma dualPointsOf_length (sites : list Site) :
  length (dualPointsOf sites) = length sites.
Proof. apply length_map. Qed.

Lemma dualPointsOf_lookup (sites : list Site) i site :
  sites !! i = Some site ->
  dualPointsOf sites !! i = Some (transformSiteToDualSpace site).
Proof.
  intros H. unfold dualPointsOf.
  change (List.map transformSiteToDualSpace sites)
    with (transformSiteToDualSpace <$> sites).
  now rewrite list_lookup_fmap, H.
Qed.

Lemma hullTriangles_faceOk (dualPoints : list Point3D) (hull : list (list nat)) :
  hullOk (length dualPoints) hull = true ->
  Forall (fun f => faceOk f = true) (hullTrianglesOf dualPoints hull).
Proof.
  unfold hullOk, hullTrianglesOf. rewrite forallb_forall, List.Forall_forall.
  intros H f Hf. apply in_map_iff in Hf as (ix & <- & Hix).
  specialize (H _ Hix). apply andb_true_iff in H as [Hlen Hlt].
  apply Nat.leb_le in Hlen. rewrite forallb_forall in Hlt.
  assert (Hall : forall i, In i ix -> is_Some (dualPoints !! i)).
  { intros i Hi. apply lookup_lt_is_Some. apply Nat.ltb_lt. auto. }
  unfold faceOk. apply andb_true_iff. split.
  - destruct ix as [|i [|j [|k ix]]]; simpl in Hlen; try lia.
    destruct (Hall i) as [? Hi]; [simpl; auto|].
    destruct (Hall j) as [? Hj]; [simpl; auto|].
    destruct (Hall k) as [? Hk]; [simpl; auto|].
    simpl. rewrite Hi, Hj, Hk. reflexivity.
  - apply forallb_forall. intros p Hp. apply in_map_iff in Hp as (i & <- & Hi).
    apply bool_decide_eq_true. auto.
Qed.

Lemma faceOk_isLowerFace (f : Face) :
  hasTriangle f = true -> exists keep, isLowerFace f = Ok keep.
Proof.
  destruct f as [|[p1|] [|[p2|] [|[p3|] f]]]; simpl; try discriminate. eauto.
Qed.

Lemma faceOk_touchesSite (site : Site) (f : Face) :
  forallb (fun p : option Point3D => bool_decide (is_Some p)) f = true ->
  exists t, touchesSite site f = Ok t.
Proof.
  induction f as [|[p|] f IH]; simpl; intros H.
  - eauto.
  - destruct (_ && _); eauto.
  - discriminate.
Qed.

Lemma faceOk_dualPointOfFace (f : Face) :
  hasTriangle f = true -> exists w, dualPointOfFace f = Ok w.
Proof.
  destruct f as [|[p1|] [|[p2|] [|[p3|] f]]]; simpl; try discriminate. eauto.
Qed.

Lemma lowerFacesOf_faceOk (tris lower_faces : list Face) :
  Forall (fun f => faceOk f = true) tris ->
  lowerFacesOf tris = Ok lower_faces ->
  Forall (fun f => faceOk f = true) lower_faces.
Proof.
  intros Hall H. rewrite List.Forall_forall in *. intros f Hf.
  apply (filterM_sound _ _ _ H) in Hf as [Hf _]. auto.
Qed.

Lemma cellOfSite_total (lower_faces : list Face) (site : Site) :
  Forall (fun f => faceOk f = true) lower_faces ->
  exists cell, cellOfSite lower_faces site = Ok cell.
Proof.
  intros Hall. unfold cellOfSite.
  destruct (filterM_total (touchesSite site) lower_faces) as [rf Hrf].
  { eapply List.Forall_impl; [|exact Hall]. intros f Hf.
    apply andb_true_iff in Hf as [_ Hf]. now apply faceOk_touchesSite. }
  rewrite Hrf. simpl.
  destruct (mapM'_total dualPointOfFace rf) as [pts Hpts].
  { rewrite List.Forall_forall in *. intros f Hf.
    apply (filterM_sound _ _ _ Hrf) in Hf as [Hf _].
    specialize (Hall _ Hf). apply andb_true_iff in Hall as [Hall _].
    now apply faceOk_dualPointOfFace. }
  rewrite Hpts. simpl. eauto.
Qed.

Lemma cellOfSite_untouched (lower_faces : list Face) (site : Site) cell :
  cellOfSite lower_faces site = Ok cell ->
  (forall f, In f lower_faces -> touchesSite site f = Ok false) ->
  cell = [].
Proof.
  unfold cellOfSite. intros H Hno.
  destruct (filterM (touchesSite site) lower_faces) as [rf|] eqn:Hrf; [|discriminate].
  simpl in H.
  assert (rf = []) as ->.
  { destruct rf as [|f rf]; [reflexivity|].
    assert (Hf : In f (f :: rf)) by now left.
    apply (filterM_sound _ _ _ Hrf) in Hf as [Hf Ht].
    rewrite (Hno _ Hf) in Ht. discriminate. }
  simpl in H. now inversion H.
Qed.

Section WithHull.

Variable qh : list (float * float * float) -> result (list (list nat)).

Lemma computePowerDiagram_unfold (sites : list Site) hull lower_faces :
  qh (pointsOfSites sites) = Ok hull ->
  lowerFacesOf (hullTrianglesOf (dualPointsOf sites) hull) = Ok lower_faces ->
  computePowerDiagram qh sites = mapM' (cellOfSite lower_faces) sites.
Proof.
  intros Hq Hl. unfold computePowerDiagram. fold (pointsOfSites sites).
  rewrite Hq. simpl. rewrite Hl. simpl.
  destruct (mapM' _ sites); reflexivity.
Qed.

(** Whatever the hull, a diagram that is returned has one cell per site:
    in particular it is not empty when there are sites. *)
Lemma computePowerDiagram_length (sites : list Site) cells :
  computePowerDiagram qh sites = Ok cells -> length cells = length sites.
Proof.
  unfold computePowerDiagram.
  destruct (qh _) as [hull|]; [|discriminate]. simpl.
  destruct (lowerFacesOf _) as [lower_faces|]; [|discriminate]. simpl.
  destruct (mapM' _ sites) as [cells'|] eqn:Hc; [|discriminate]. simpl.
  intros H. inversion H; subst. now apply mapM'_length in Hc.
Qed.

(** C3. For a hull the adapter built well (at least three indices per face,
    all of them indices of sites), [computePowerDiagram] returns one cell
    per site, in the order of the sites: the cell at position [i] is the one
    recovered for the site at position [i], and it is the empty polygon when
    no retained lower face has a vertex at the site's [(x, y)]. *)
Theorem computePowerDiagram_one_cell_per_site (sites : list Site) hull :
  qh (pointsOfSites sites) = Ok hull ->
  hullOk (length sites) hull = true ->
  exists lower_faces cells,
    lowerFacesOf (hullTrianglesOf (dualPointsOf sites) hull) = Ok lower_faces /\
    computePowerDiagram qh sites = Ok cells /\
    length cells = length sites /\
    forall i site, sites !! i = Some site ->
      exists cell,
        cells !! i = Some cell /\
        cellOfSite lower_faces site = Ok cell /\
        ((forall f, In f lower_faces -> touchesSite site f = Ok false) -> cell = []).
Proof.
  intros Hq Hok.
  pose proof (hullTriangles_faceOk (dualPointsOf sites) hull) as Htris.
  rewrite dualPointsOf_length in Htris. specialize (Htris Hok).
  destruct (filterM_total isLowerFace (hullTrianglesOf (dualPointsOf sites) hull))
    as [lower_faces Hl].
  { eapply List.Forall_impl; [|exact Htris]. intros f Hf.
    apply andb_true_iff in Hf as [Hf _]. now apply faceOk_isLowerFace. }
  pose proof (lowerFacesOf_faceOk _ _ Htris Hl) as Hlow.
  destruct (mapM'_total (cellOfSite lower_faces) sites) as [cells Hcells].
  { apply List.Forall_forall. intros site _. now apply cellOfSite_total. }
  exists lower_faces, cells. split; [exact Hl|].
  split; [now rewrite (computePowerDiagram_unfold _ _ _ Hq Hl)|].
  split; [now apply mapM'_length in Hcells|].
  intros i site Hi.
  destruct (mapM'_lookup _ _ _ _ _ Hcells Hi) as (cell & Hc & Hcell).
  exists cell. split; [exact Hc|]. split; [exact Hcell|].
  now apply cellOfSite_untouched.
Qed.

(** C5, as the code has it.  [computePowerDiagram] tests neither [gamma]
    nor the coordinates it computes: a retained lower face with a vertex at
    the site contributes its vertex to the site's cell whatever [gamma] is,
    and when [gamma == 0] both coordinates of that vertex are non-finite. *)
Theorem computePowerDiagram_keeps_zero_gamma_face
    (sites : list Site) hull lower_faces cells i site cell p1 p2 p3 rest :
  qh (pointsOfSites sites) = Ok hull ->
  lowerFacesOf (hullTrianglesOf (dualPointsOf sites) hull) = Ok lower_faces ->
  computePowerDiagram qh sites = Ok cells ->
  sites !! i = Some site ->
  cells !! i = Some cell ->
  In (Some p1 :: Some p2 :: Some p3 :: rest) lower_faces ->
  touchesSite site (Some p1 :: Some p2 :: Some p3 :: rest) = Ok true ->
  let vertex := mapTo2D (delta (calculatePlaneCoefficients p1 p2 p3)) in
  In vertex cell /\
  ((gammaOf p1 p2 p3 =? 0) = true ->
   isFinite (x vertex) = false /\ isFinite (y vertex) = false).
Proof.
  intros Hq Hl Hcells Hi Hc Hf Ht vertex.
  rewrite (computePowerDiagram_unfold _ _ _ Hq Hl) in Hcells.
  destruct (mapM'_lookup _ _ _ _ _ Hcells Hi) as (cell' & Hc' & Hcell).
  pose proof (eq_trans (eq_sym Hc) Hc') as Heq.
  inversion Heq; subst cell'; clear Heq Hc'.
  split.
  - unfold cellOfSite in Hcell.
    destruct (filterM (touchesSite site) lower_faces) as [rf|] eqn:Hrf; [|discriminate].
    simpl in Hcell.
    destruct (mapM' dualPointOfFace rf) as [pts|] eqn:Hpts; [|discriminate].
    simpl in Hcell. inversion Hcell; subst cell; clear Hcell.
    assert (Hin : In (Some p1 :: Some p2 :: Some p3 :: rest) rf).
    { apply (filterM_sound _ _ _ Hrf). auto. }
    destruct (mapM'_In _ _ _ _ Hpts Hin) as (w & Hw & Hdual).
    simpl in Hdual. inversion Hdual; subst w. now apply in_map.
  - intros Hg. split; apply half_not_finite, div_zero_not_finite, Hg.
Qed.

End WithHull.

(** C1, at a site of negative weight.  The lifting takes the square root
    of the weight before squaring it again: for the site [(0, 0)] of weight
    [-1] the third coordinate is [NaN], where [x² + y² - weight] is [1]. *)
Theorem transformSiteToDualSpace_negative_weight :
  let site := mkSite 0 0 (-1) in
  let lifted := transformSiteToDualSpace site in
  x lifted = x site /\ y lifted = y site /\
  z lifted = nan /\ isFinite (z lifted) = false /\
  sq (x site) + sq (y site) - weight site = 1.
Proof. vm_compute. repeat split. Qed.

(** The same for every negative weight. *)
Lemma transformSiteToDualSpace_negative_weights (site : Site) :
  (weight site <? 0) = true -> z (transformSiteToDualSpace site) = nan.
Proof.
  intros H. unfold transformSiteToDualSpace. simpl.
  rewrite (sqrt_negative _ H). change (sq nan) with nan. apply sub_nan.
Qed.

(** What does hold of the lifting: one point per site, in order, with the
    site's own [x] and [y]. *)
Lemma transformSiteToDualSpace_xy (sites : list Site) :
  length (dualPointsOf sites) = length sites /\
  forall (i : nat) (site : Site), sites !! i = Some site ->
    exists lifted : Point3D, dualPointsOf sites !! i = Some lifted /\
                   x lifted = x site /\ y lifted = y site /\
                   z lifted = sq (x site) + sq (y site) - sq (sqrt (weight site)).
Proof.
  split; [apply dualPointsOf_length|]. intros i site Hi.
  exists (transformSiteToDualSpace site).
  split; [now apply dualPointsOf_lookup|]. repeat split.
Qed.

(** C2. Lower-envelope extraction keeps, of the hull faces, those whose
    normal has a strictly negative third component, the normal being the
    cross product of [p2 - p1] and [p3 - p1] for the first three vertices of
    the face; a face whose normal has third component [0] is not kept. *)
Theorem lowerFacesOf_strictly_negative_normal (hull_triangles : list Face) :
  Forall (fun f => hasTriangle f = true) hull_triangles ->
  exists lower_faces,
    lowerFacesOf hull_triangles = Ok lower_faces /\
    (forall f, In f lower_faces -> In f hull_triangles) /\
    forall p1 p2 p3 rest,
      In (Some p1 :: Some p2 :: Some p3 :: rest) hull_triangles ->
      let normal := crossProduct (vectorFromTo p1 p2) (vectorFromTo p1 p3) in
      computeNormal p1 p2 p3 = normal /\
      (In (Some p1 :: Some p2 :: Some p3 :: rest) lower_faces
         <-> (z normal <? 0) = true) /\
      ((z normal =? 0) = true ->
         ~ In (Some p1 :: Some p2 :: Some p3 :: rest) lower_faces).
Proof.
  intros Hall.
  destruct (filterM_total isLowerFace hull_triangles) as [lower_faces Hl].
  { eapply List.Forall_impl; [|exact Hall]. intros f. apply faceOk_isLowerFace. }
  exists lower_faces. split; [exact Hl|]. split.
  { intros f Hf. now apply (filterM_sound _ _ _ Hl) in Hf as [Hf _]. }
  intros p1 p2 p3 rest Hin normal.
  assert (Hiff : In (Some p1 :: Some p2 :: Some p3 :: rest) lower_faces
                 <-> (z normal <? 0) = true).
  { rewrite (filterM_sound _ _ _ Hl). simpl. split.
    - intros [_ H]. now inversion H.
    - intros H. split; [exact Hin|]. f_equal. exact H. }
  split; [apply computeNormal_crossProduct|]. split; [exact Hiff|].
  intros Hz Hf. apply Hiff in Hf. apply eqb_zero_not_ltb in Hz. congruence.
Qed.

Lemma lowerFacesOf_strictly_negative_normal_witness :
  let hull_triangles := hullTrianglesOf (dualPointsOf exampleSites) tetrahedronHull in
  Forall (fun f => hasTriangle f = true) hull_triangles /\
  exists lower_faces,
    lowerFacesOf hull_triangles = Ok lower_faces /\
    (forall f, In f lower_faces -> In f hull_triangles) /\
    forall p1 p2 p3 rest,
      In (Some p1 :: Some p2 :: Some p3 :: rest) hull_triangles ->
      let normal := crossProduct (vectorFromTo p1 p2) (vectorFromTo p1 p3) in
      computeNormal p1 p2 p3 = normal /\
      (In (Some p1 :: Some p2 :: Some p3 :: rest) lower_faces
         <-> (z normal <? 0) = true) /\
      ((z normal =? 0) = true ->
         ~ In (Some p1 :: Some p2 :: Some p3 :: rest) lower_faces).
Proof.
  split.
  - repeat constructor.
  - apply lowerFacesOf_strictly_negative_normal. repeat constructor.
Defined.

(** The two hulls are hulls, and on [exampleSites] the vertices of the
    diagram are the three circumcentres: the inner site has a cell of three
    vertices and the others have two each. *)
Lemma tetrahedronHull_outwards :
  outwards (dualPointsOf exampleSites) tetrahedronHull = true /\
  outwards (dualPointsOf nearlyAlignedSites) tetrahedronHull = true /\
  outwards (dualPointsOf hiddenSites) hiddenHull = true.
Proof. repeat split; reflexivity. Qed.

Lemma computePowerDiagram_exampleSites :
  computePowerDiagram qhTetrahedron exampleSites
  = Ok [[{| x := 2; y := -1 |}; {| x := -1; y := 2 |}];
        [{| x := 2; y := -1 |}; {| x := 3.5; y := 3.5 |}];
        [{| x := -1; y := 2 |}; {| x := 3.5; y := 3.5 |}];
        [{| x := 2; y := -1 |}; {| x := -1; y := 2 |}; {| x := 3.5; y := 3.5 |}]].
Proof. vm_compute. reflexivity. Qed.

(** On [hiddenSites] the three outer sites share the one vertex and the
    inner site, which no lower face touches, has the empty polygon. *)
Lemma computePowerDiagram_hiddenSites :
  computePowerDiagram qhHidden hiddenSites
  = Ok [[{| x := 2; y := 2 |}]; [{| x := 2; y := 2 |}]; [{| x := 2; y := 2 |}]; []].
Proof. vm_compute. reflexivity. Qed.

Lemma computePowerDiagram_one_cell_per_site_witness :
  qhTetrahedron (pointsOfSites exampleSites) = Ok tetrahedronHull /\
  hullOk (length exampleSites) tetrahedronHull = true /\
  exists lower_faces cells,
    lowerFacesOf (hullTrianglesOf (dualPointsOf exampleSites) tetrahedronHull)
      = Ok lower_faces /\
    computePowerDiagram qhTetrahedron exampleSites = Ok cells /\
    length cells = length exampleSites /\
    forall i site, exampleSites !! i = Some site ->
      exists cell,
        cells !! i = Some cell /\
        cellOfSite lower_faces site = Ok cell /\
        ((forall f, In f lower_faces -> touchesSite site f = Ok false) -> cell = []).
Proof.
  split; [reflexivity|]. split; [reflexivity|].
  apply (computePowerDiagram_one_cell_per_site qhTetrahedron exampleSites tetrahedronHull);
    reflexivity.
Defined.

(** C5, as the claim has it, fails on [nearlyAlignedSites]: the hull face of
    the first three sites has [gamma == 0], it is kept as a lower face (its
    normal has third component [-2^-102]), and the cell of the first site
    holds its vertex [(-Infinity, Infinity)]. *)
Lemma computePowerDiagram_emits_non_finite_vertex :
  exists p1 p2 p3 lower_faces cells cell,
    hullTrianglesOf (dualPointsOf nearlyAlignedSites) tetrahedronHull !! 0%nat
      = Some [Some p1; Some p2; Some p3] /\
    (gammaOf p1 p2 p3 =? 0) = true /\
    lowerFacesOf (hullTrianglesOf (dualPointsOf nearlyAlignedSites) tetrahedronHull)
      = Ok lower_faces /\
    In [Some p1; Some p2; Some p3] lower_faces /\
    computePowerDiagram qhTetrahedron nearlyAlignedSites = Ok cells /\
    cells !! 0%nat = Some cell /\
    In {| x := neg_infinity; y := infinity |} cell /\
    isFinite neg_infinity = false /\ isFinite infinity = false.
Proof.
  do 6 eexists. vm_compute.
  split; [reflexivity|]. split; [reflexivity|]. split; [reflexivity|].
  split; [left; reflexivity|]. split; [reflexivity|]. split; [reflexivity|].
  split; [left; reflexivity|]. split; reflexivity.
Qed.

Lemma computePowerDiagram_keeps_zero_gamma_face_witness :
  let p1 := transformSiteToDualSpace (mkSite 1 0 1) in
  let p2 := transformSiteToDualSpace (mkSite 0x1.0000000000001p+0 1 1) in
  let p3 := transformSiteToDualSpace
              (mkSite 0x1.0000000000002p+0 0x1.ffffffffffffcp+0 1) in
  let cell := [{| x := neg_infinity; y := infinity |};
               {| x := 0x1.0000000000001p-1; y := 0x1.0000000000001p-1 |}] in
  let vertex := mapTo2D (delta (calculatePlaneCoefficients p1 p2 p3)) in
  (exists cells, computePowerDiagram qhTetrahedron nearlyAlignedSites = Ok cells /\
                 cells !! 0%nat = Some cell) /\
  touchesSite (mkSite 1 0 1) [Some p1; Some p2; Some p3] = Ok true /\
  In vertex cell /\
  ((gammaOf p1 p2 p3 =? 0) = true ->
   isFinite (x vertex) = false /\ isFinite (y vertex) = false).
Proof.
  intros p1 p2 p3 cell vertex.
  destruct (lowerFacesOf (hullTrianglesOf (dualPointsOf nearlyAlignedSites)
                            tetrahedronHull)) as [lower_faces|] eqn:Hl;
    [|discriminate].
  destruct (computePowerDiagram qhTetrahedron nearlyAlignedSites) as [cells|] eqn:Hc;
    [|discriminate].
  split; [exists cells; vm_compute in Hc; inversion Hc; split; reflexivity|].
  split; [reflexivity|].
  apply (computePowerDiagram_keeps_zero_gamma_face qhTetrahedron nearlyAlignedSites
           tetrahedronHull lower_faces cells 0 (mkSite 1 0 1) cell p1 p2 p3 []).
  - reflexivity.
  - exact Hl.
  - exact Hc.
  - reflexivity.
  - vm_compute in Hc. inversion Hc. reflexivity.
  - vm_compute in Hl. inversion Hl. left. reflexivity.
  - reflexivity.
Defined.

(** *** More on [computePowerDiagram] *)

Lemma filterM_ext {A} (p q : A -> result bool) (l : list A) :
  (forall v, In v l -> p v = q v) -> filterM p l = filterM q l.
Proof.
  induction l as [|v l IH]; simpl; intros H; [reflexivity|].
  rewrite (H v) by now left. rewrite IH; [reflexivity|].
  intros u Hu. apply H. now right.
Qed.

Lemma filterM_throws {A} (p : A -> result bool) (l : list A) (v : A) :
  (forall u e, p u = Throw e -> e = TypeError) ->
  In v l -> p v = Throw TypeError -> filterM p l = Throw TypeError.
Proof.
  intros Hp. induction l as [|u l IH]; simpl; intros Hin Hv; [tauto|].
  destruct (p u) as [keep|e] eqn:Eu; simpl.
  - destruct Hin as [->|Hin]; [congruence|]. now rewrite IH.
  - now rewrite (Hp _ _ Eu).
Qed.

Lemma touchesSite_same_position (s1 s2 : Site) (f : Face) :
  x s1 = x s2 -> y s1 = y s2 -> touchesSite s1 f = touchesSite s2 f.
Proof.
  intros Hx Hy. induction f as [|[p|] f IH]; simpl; [reflexivity| |reflexivity].
  now rewrite Hx, Hy, IH.
Qed.

Lemma touchesSite_nan (site : Site) (f : Face) :
  is_nan (x site) = true \/ is_nan (y site) = true ->
  touchesSite site f <> Ok true.
Proof.
  intros Hnan. induction f as [|[p|] f IH]; simpl; [discriminate| |discriminate].
  assert (Hne : (x p =? x site) && (y p =? y site) = false).
  { destruct Hnan as [H|H].
    - now rewrite (eqb_nan_r _ _ H).
    - rewrite (eqb_nan_r _ _ H). apply andb_false_r. }
  now rewrite Hne.
Qed.

Lemma cellOfSite_nan (lower_faces : list Face) (site : Site) cell :
  is_nan (x site) = true \/ is_nan (y site) = true ->
  cellOfSite lower_faces site = Ok cell -> cell = [].
Proof.
  unfold cellOfSite. intros Hnan H.
  destruct (filterM (touchesSite site) lower_faces) as [rf|] eqn:Hrf; [|discriminate].
  simpl in H.
  assert (rf = []) as ->.
  { destruct rf as [|f rf]; [reflexivity|].
    assert (Hf : In f (f :: rf)) by now left.
    apply (filterM_sound _ _ _ Hrf) in Hf as [_ Ht].
    now apply touchesSite_nan in Ht. }
  simpl in H. now inversion H.
Qed.

Lemma isLowerFace_throws (f : Face) (k : nat) :
  (k < 3)%nat -> (forall p, f !! k <> Some (Some p)) ->
  isLowerFace f = Throw TypeError.
Proof.
  intros Hk Hf.
  destruct f as [|[p1|] [|[p2|] [|[p3|] f]]]; try reflexivity.
  destruct k as [|[|[|k]]]; [| | |lia].
  - now destruct (Hf p1).
  - now destruct (Hf p2).
  - now destruct (Hf p3).
Qed.

Lemma isLowerFace_TypeError (f : Face) e : isLowerFace f = Throw e -> e = TypeError.
Proof.
  destruct f as [|[p1|] [|[p2|] [|[p3|] f]]]; simpl; congruence.
Qed.

Lemma touchesSite_TypeError (site : Site) (f : Face) e :
  touchesSite site f = Throw e -> e = TypeError.
Proof.
  induction f as [|[p|] f IH]; simpl; [discriminate| |congruence].
  destruct (_ && _); [discriminate|exact IH].
Qed.

Lemma dualPointOfFace_TypeError (f : Face) e :
  dualPointOfFace f = Throw e -> e = TypeError.
Proof.
  destruct f as [|[p1|] [|[p2|] [|[p3|] f]]]; simpl; congruence.
Qed.

Lemma cellOfSite_TypeError (lower_faces : list Face) (site : Site) e :
  cellOfSite lower_faces site = Throw e -> e = TypeError.
Proof.
  unfold cellOfSite.
  destruct (filterM (touchesSite site) lower_faces) as [rf|e1] eqn:E1; cbn [bind].
  - destruct (mapM' dualPointOfFace rf) as [pts|e2] eqn:E2; cbn [bind]; [discriminate|].
    intros H. inversion H; subst.
    apply (mapM'_TypeError _ _ dualPointOfFace_TypeError _ E2).
  - intros H. inversion H; subst.
    apply (filterM_TypeError _ _ (touchesSite_TypeError site) _ E1).
Qed.

Section WithHullMore.

Variable qh : list (float * float * float) -> result (list (list nat)).

(** X22. The cell of a site depends on its position only: two sites at the same
    [(x, y)] get the same cell, whatever their weights. *)
Theorem computePowerDiagram_same_position_same_cell
    (sites : list Site) cells i j (si sj : Site) :
  computePowerDiagram qh sites = Ok cells ->
  sites !! i = Some si -> sites !! j = Some sj ->
  x si = x sj -> y si = y sj ->
  cells !! i = cells !! j /\ exists cell, cells !! i = Some cell.
Proof.
  unfold computePowerDiagram. intros H Hi Hj Hx Hy.
  destruct (qh _) as [hull|]; [|discriminate]. simpl in H.
  destruct (lowerFacesOf _) as [lower_faces|]; [|discriminate]. simpl in H.
  destruct (mapM' _ sites) as [cells'|] eqn:Hc; [|discriminate]. simpl in H.
  inversion H; subst cells'; clear H.
  destruct (mapM'_lookup _ _ _ _ _ Hc Hi) as (ci & Hci & Hcelli).
  destruct (mapM'_lookup _ _ _ _ _ Hc Hj) as (cj & Hcj & Hcellj).
  split; [|eauto]. rewrite Hci, Hcj. f_equal.
  assert (Heq : cellOfSite lower_faces si = cellOfSite lower_faces sj).
  { unfold cellOfSite.
    rewrite (filterM_ext (touchesSite si) (touchesSite sj)); [reflexivity|].
    intros f _. now apply touchesSite_same_position. }
  congruence.
Qed.

(** X23. A site with a [NaN] coordinate is equal to no vertex: its cell is the
    empty polygon. *)
Theorem computePowerDiagram_nan_site_empty_cell (sites : list Site) cells i (site : Site) :
  computePowerDiagram qh sites = Ok cells ->
  sites !! i = Some site ->
  is_nan (x site) = true \/ is_nan (y site) = true ->
  cells !! i = Some [].
Proof.
  unfold computePowerDiagram. intros H Hi Hnan.
  destruct (qh _) as [hull|]; [|discriminate]. simpl in H.
  destruct (lowerFacesOf _) as [lower_faces|]; [|discriminate]. simpl in H.
  destruct (mapM' _ sites) as [cells'|] eqn:Hc; [|discriminate]. simpl in H.
  inversion H; subst cells'; clear H.
  destruct (mapM'_lookup _ _ _ _ _ Hc Hi) as (cell & Hcell & Hsite).
  rewrite (cellOfSite_nan _ _ _ Hnan Hsite) in Hcell. exact Hcell.
Qed.

(** X24. A hull face that has no site's index at one of its first three places,
    because it is shorter or because the index is out of range, makes
    [computePowerDiagram] throw a [TypeError]. *)
Theorem computePowerDiagram_bad_hull_face (sites : list Site) hull face k :
  qh (pointsOfSites sites) = Ok hull ->
  In face hull ->
  (k < 3)%nat ->
  (forall i, face !! k = Some i -> (length sites <= i)%nat) ->
  computePowerDiagram qh sites = Throw TypeError.
Proof.
  intros Hq Hface Hk Hbad. unfold computePowerDiagram.
  fold (pointsOfSites sites). rewrite Hq. simpl.
  unfold lowerFacesOf.
  rewrite (filterM_throws isLowerFace _
             (List.map (fun i => dualPointsOf sites !! i) face));
    [reflexivity|apply isLowerFace_TypeError| |].
  - unfold hullTrianglesOf. apply in_map_iff. eauto.
  - apply (isLowerFace_throws _ k Hk). intros p Hp.
    pose proof (list_lookup_fmap (fun i => dualPointsOf sites !! i) face k) as Hl.
    pose proof (eq_trans (eq_sym Hl) Hp) as Hk'. clear Hl Hp.
    destruct (face !! k) as [i|] eqn:Hi; [|discriminate].
    simpl in Hk'. inversion Hk' as [Hl].
    apply lookup_lt_Some in Hl. rewrite dualPointsOf_length in Hl.
    specialize (Hbad i eq_refl). lia.
Qed.

(** The exported [computePowerDiagram] has no test on the number of sites:
    whatever the hull routine does, it returns one cell per site, or throws
    what the hull routine threw, or throws a [TypeError]. *)
Lemma computePowerDiagram_returns_or_throws (sites : list Site) :
  match computePowerDiagram qh sites with
  | Ok cells => length cells = length sites
  | Throw e => qh (pointsOfSites sites) = Throw e \/ e = TypeError
  end.
Proof.
  destruct (computePowerDiagram qh sites) as [cells|e] eqn:H;
    [exact (computePowerDiagram_length qh _ _ H)|].
  unfold computePowerDiagram in H. fold (pointsOfSites sites) in H.
  destruct (qh (pointsOfSites sites)) as [hull|e1]; cbn [bind] in H;
    [|left; congruence].
  right.
  destruct (lowerFacesOf _) as [lower_faces|e2] eqn:E2; cbn [bind] in H.
  - destruct (mapM' _ sites) as [cells|e3] eqn:E3; cbn [bind] in H; [discriminate|].
    inversion H; subst.
    apply (mapM'_TypeError _ _ (cellOfSite_TypeError lower_faces) _ E3).
  - inversion H; subst.
    apply (filterM_TypeError _ _ isLowerFace_TypeError _ E2).
Qed.

End WithHullMore.

Lemma computePowerDiagram_same_position_same_cell_witness :
  exists cells,
    computePowerDiagram qhTetrahedron twinSites = Ok cells /\
    cells !! 0%nat = cells !! 3%nat /\ exists cell, cells !! 0%nat = Some cell.
Proof.
  destruct (computePowerDiagram qhTetrahedron twinSites) as [cells|] eqn:Hc;
    [|discriminate].
  exists cells. split; [reflexivity|].
  apply (computePowerDiagram_same_position_same_cell qhTetrahedron twinSites cells
           0 3 (mkSite 0 0 1) (mkSite 0 0 3)); [exact Hc|reflexivity..].
Defined.

Lemma computePowerDiagram_nan_site_empty_cell_witness :
  exists lower_faces cells,
    lowerFacesOf (hullTrianglesOf (dualPointsOf nanFiveSites) tetrahedronHull)
    = Ok lower_faces /\
    length lower_faces = 3%nat /\
    Forall (fun f => touchesSite (mkSite nan 1 1) f = Ok false) lower_faces /\
    computePowerDiagram qhFourOfFive nanFiveSites = Ok cells /\
    cells !! 3%nat
    = Some [{| x := 2; y := -1 |}; {| x := -1; y := 2 |}; {| x := 3.5; y := 3.5 |}] /\
    cells !! 4%nat = Some [].
Proof.
  destruct (lowerFacesOf (hullTrianglesOf (dualPointsOf nanFiveSites) tetrahedronHull))
    as [lower_faces|] eqn:Hl; [|discriminate].
  destruct (computePowerDiagram qhFourOfFive nanFiveSites) as [cells|] eqn:Hc;
    [|discriminate].
  exists lower_faces, cells. split; [reflexivity|].
  split; [vm_compute in Hl; inversion Hl; reflexivity|].
  split; [vm_compute in Hl; inversion Hl; repeat constructor|].
  split; [reflexivity|].
  split; [vm_compute in Hc; inversion Hc; reflexivity|].
  apply (computePowerDiagram_nan_site_empty_cell qhFourOfFive nanFiveSites cells
           4 (mkSite nan 1 1)); [exact Hc|reflexivity|left; reflexivity].
Defined.

Lemma computePowerDiagram_bad_hull_face_witness :
  computePowerDiagram qhShortFace exampleSites = Throw TypeError /\
  computePowerDiagram qhBadIndex exampleSites = Throw TypeError.
Proof.
  split.
  - apply (computePowerDiagram_bad_hull_face qhShortFace exampleSites
             [[0; 1; 2]; [0; 1]]%nat [0; 1]%nat 2);
      [reflexivity|right; left; reflexivity|lia|discriminate].
  - apply (computePowerDiagram_bad_hull_face qhBadIndex exampleSites
             [[0; 1; 2]; [0; 7; 1]]%nat [0; 7; 1]%nat 1);
      [reflexivity|right; left; reflexivity|lia|].
    intros i Hi. inversion Hi. simpl. lia.
Defined.

(** *** Rendering ([render_weighted_voronoi]) *)

Lemma drawCell_no_arc (indexed : nat * Polygon) :
  Forall (fun op => isArc op = false) (fst (drawCell indexed)).
Proof.
  destruct indexed as [index cell]. unfold drawCell.
  apply seqD_Forall. repeat constructor.
  - apply forEachD_Forall. intros p _. repeat constructor.
  - destruct cell; repeat constructor.
  - destruct (colors !! _); repeat constructor.
Qed.

Lemma drawCell_TypeError (indexed : nat * Polygon) e :
  snd (drawCell indexed) = Throw e -> e = TypeError.
Proof.
  destruct indexed as [index cell]. unfold drawCell.
  apply seqD_TypeError. repeat constructor; try discriminate.
  - apply forEachD_TypeError. discriminate.
  - destruct cell; simpl; intros e' H; congruence.
  - destruct (colors !! _); discriminate.
Qed.

Lemma drawCell_ok (index : nat) (cell : Polygon) :
  cell <> [] ->
  snd (drawCell (index, cell)) = Ok tt /\
  List.filter isArc (fst (drawCell (index, cell))) = [].
Proof.
  intros Hne. destruct cell as [|p cell]; [congruence|].
  unfold drawCell.
  assert (Hcolor : exists color, colors !! (index mod length colors)%nat = Some color).
  { apply lookup_lt_is_Some_2. apply Nat.mod_upper_bound. discriminate. }
  destruct Hcolor as [color ->].
  rewrite seqD_ok.
  - split; [reflexivity|]. cbn [List.map concat fst].
    rewrite forEachD_ok by (intros; reflexivity). cbn [fst].
    rewrite !List.filter_app.
    rewrite (filter_flat_map_none isArc) by (intros; reflexivity).
    reflexivity.
  - repeat constructor. rewrite forEachD_ok by (intros; reflexivity). reflexivity.
Qed.

Section Rendering.

Variable qh : list (float * float * float) -> result (list (list nat)).

Lemma render_weighted_voronoi_unfold
    (sites : list Site) (boundingPolygon : list Point2D) (canvas : HTMLCanvasElement)
    diagram :
  getContext2d canvas = true ->
  computePowerDiagram qh sites = Ok diagram ->
  render_weighted_voronoi qh sites boundingPolygon canvas
  = seqD [emit (ctx_clearRect 0 0 (width canvas) (height canvas));
          emit ctx_beginPath;
          bindD (lift (vertexAt boundingPolygon 0))
                (fun p : Point2D => emit (ctx_moveTo (x p) (y p)));
          forEachD (fun p : Point2D => emit (ctx_lineTo (x p) (y p)))
                   (drop 1 boundingPolygon);
          emit ctx_closePath;
          emit (ctx_strokeStyle "black");
          emit ctx_stroke;
          forEachD drawCell (combine (seq 0 (length diagram)) diagram);
          forEachD drawSite sites;
          forEachD (forEachD drawVertex) diagram].
Proof.
  intros Hctx Hd. unfold render_weighted_voronoi. rewrite Hd, Hctx.
  unfold lift, bindD at 1. cbn [negb app].
  now destruct (seqD _).
Qed.

(** X27. Nothing is drawn exactly when the canvas gives no 2D context or the
    diagram could not be computed; without a context the call returns if the
    diagram was computed and throws what that threw otherwise. *)
Theorem render_weighted_voronoi_draws_nothing
    (sites : list Site) (boundingPolygon : list Point2D) (canvas : HTMLCanvasElement) :
  (fst (render_weighted_voronoi qh sites boundingPolygon canvas) = [] <->
   getContext2d canvas = false \/ exists e, computePowerDiagram qh sites = Throw e) /\
  (getContext2d canvas = false ->
   snd (render_weighted_voronoi qh sites boundingPolygon canvas)
   = bind (computePowerDiagram qh sites) (fun _ => Ok tt)).
Proof.
  unfold render_weighted_voronoi.
  destruct (computePowerDiagram qh sites) as [diagram|e]; cbn [lift bindD bind].
  - destruct (getContext2d canvas); cbn [negb].
    + rewrite seqD_cons_ok by reflexivity. cbn [fst snd emit app].
      split; [|discriminate].
      split; [discriminate|]. intros [H|[e H]]; discriminate.
    + simpl. split; [|reflexivity]. split; auto.
  - simpl. split; [|reflexivity]. split; eauto.
Qed.

(** X28. An empty bounding polygon: the canvas is cleared, a path is begun and
    the call throws a [TypeError]. *)
Theorem render_weighted_voronoi_empty_bounding_polygon
    (sites : list Site) (canvas : HTMLCanvasElement) diagram :
  getContext2d canvas = true ->
  computePowerDiagram qh sites = Ok diagram ->
  render_weighted_voronoi qh sites [] canvas
  = ([ctx_clearRect 0 0 (width canvas) (height canvas); ctx_beginPath],
     Throw TypeError).
Proof.
  intros Hctx Hd. unfold render_weighted_voronoi. rewrite Hd, Hctx. reflexivity.
Qed.

(** X29. A diagram with an empty cell cannot be drawn: reading the first vertex
    of that cell throws a [TypeError], and neither a site nor a vertex has
    been drawn by then. *)
Theorem render_weighted_voronoi_empty_cell
    (sites : list Site) (boundingPolygon : list Point2D) (canvas : HTMLCanvasElement)
    diagram :
  getContext2d canvas = true ->
  computePowerDiagram qh sites = Ok diagram ->
  In [] diagram ->
  snd (render_weighted_voronoi qh sites boundingPolygon canvas) = Throw TypeError /\
  Forall (fun op => isArc op = false)
         (fst (render_weighted_voronoi qh sites boundingPolygon canvas)).
Proof.
  intros Hctx Hd Hin.
  rewrite (render_weighted_voronoi_unfold _ _ _ _ Hctx Hd).
  assert (Hcells :
    snd (forEachD drawCell (combine (seq 0 (length diagram)) diagram)) = Throw TypeError /\
    Forall (fun op => isArc op = false)
           (fst (forEachD drawCell (combine (seq 0 (length diagram)) diagram)))).
  { apply list_elem_of_In, list_elem_of_lookup_1 in Hin as [index Hindex].
    apply (forEachD_stops _ _ _ (index, [])).
    - intros u _. apply drawCell_no_arc.
    - intros u e _. apply drawCell_TypeError.
    - now apply In_combine_seq.
    - reflexivity. }
  destruct Hcells as [Hthrow Hops].
  match goal with
  | |- context [seqD (?s1 :: ?s2 :: ?s3 :: ?s4 :: ?s5 :: ?s6 :: ?s7 :: ?s8 :: ?post)] =>
      destruct (seqD_stops (fun op => isArc op = false)
                  [s1; s2; s3; s4; s5; s6; s7] s8 post) as [H1 H2];
        [|exact Hops|exact Hthrow|]
  end.
  - repeat constructor; try discriminate.
    + destruct boundingPolygon; repeat constructor.
    + destruct boundingPolygon; simpl; intros e' H; congruence.
    + apply forEachD_Forall. intros p _. repeat constructor.
    + apply forEachD_TypeError. discriminate.
  - split; [exact H1|exact H2].
Qed.

(** X30. With a bounding polygon and cells that all have a vertex the call
    returns, and the discs it draws are one of radius 6 at each site, in the
    order of the sites, then one of radius 2 at each vertex of each cell. *)
Theorem render_weighted_voronoi_discs
    (sites : list Site) (boundingPolygon : list Point2D) (canvas : HTMLCanvasElement)
    diagram :
  getContext2d canvas = true ->
  computePowerDiagram qh sites = Ok diagram ->
  boundingPolygon <> [] ->
  Forall (fun cell : Polygon => cell <> []) diagram ->
  snd (render_weighted_voronoi qh sites boundingPolygon canvas) = Ok tt /\
  List.filter isArc (fst (render_weighted_voronoi qh sites boundingPolygon canvas))
  = List.map (fun site : Site => ctx_arc (x site) (y site) 6 0 (2 * Math_PI)) sites
    ++ List.map (fun p : Point2D => ctx_arc (x p) (y p) 2 0 (2 * Math_PI))
                (concat diagram).
Proof.
  intros Hctx Hd Hbp Hcells.
  rewrite (render_weighted_voronoi_unfold _ _ _ _ Hctx Hd).
  destruct boundingPolygon as [|p0 rest]; [congruence|]. cbn [drop].
  assert (HdrawCell : forall v, In v (combine (seq 0 (length diagram)) diagram) ->
                                snd (drawCell v) = Ok tt /\
                                List.filter isArc (fst (drawCell v)) = []).
  { intros [index cell] Hv. apply drawCell_ok.
    apply in_combine_r in Hv. rewrite List.Forall_forall in Hcells. auto. }
  assert (Hvertices : forall cell : Polygon,
             forEachD drawVertex cell
             = (flat_map (fun p => fst (drawVertex p)) cell, Ok tt))
    by (intros cell; apply forEachD_ok; intros; reflexivity).
  rewrite seqD_ok.
  - split; [reflexivity|]. cbn [List.map concat fst emit].
    rewrite !forEachD_ok
      by (try (intros v Hv; apply HdrawCell, Hv); intros; try rewrite Hvertices;
          reflexivity).
    cbn [fst]. rewrite !List.filter_app.
    rewrite (filter_flat_map_none isArc (fun v : Point2D => _)) by (intros; reflexivity).
    rewrite (filter_flat_map_none isArc (fun v : nat * Polygon => _))
      by (intros v Hv; apply HdrawCell, Hv).
    rewrite (filter_flat_map_one isArc (fun v : Site => _)
               (fun site : Site => ctx_arc (x site) (y site) 6 0 (2 * Math_PI)))
      by (intros; reflexivity).
    match goal with
    | |- context [List.filter isArc (fst (bindD ?m ?k))] =>
        change (List.filter isArc (fst (bindD m k))) with (@nil DrawOp)
    end.
    cbn [List.filter isArc app]. rewrite app_nil_r. f_equal.
    clear Hd Hcells HdrawCell.
    induction diagram as [|cell diagram IH]; [reflexivity|].
    cbn [flat_map concat]. rewrite List.filter_app, map_app, Hvertices. cbn [fst].
    rewrite IH. f_equal.
    apply (filter_flat_map_one isArc). intros; reflexivity.
  - repeat constructor.
    + rewrite forEachD_ok by (intros; reflexivity). reflexivity.
    + rewrite forEachD_ok by (intros v Hv; apply HdrawCell, Hv). reflexivity.
    + rewrite forEachD_ok by (intros; reflexivity). reflexivity.
    + rewrite forEachD_ok by (intros; rewrite Hvertices; reflexivity). reflexivity.
Qed.

End Rendering.

Lemma render_weighted_voronoi_empty_bounding_polygon_witness :
  render_weighted_voronoi qhTetrahedron exampleSites [] canvas2d
  = ([ctx_clearRect 0 0 400 300; ctx_beginPath], Throw TypeError).
Proof.
  destruct (computePowerDiagram qhTetrahedron exampleSites) as [diagram|] eqn:Hd;
    [|discriminate].
  apply (render_weighted_voronoi_empty_bounding_polygon qhTetrahedron exampleSites
           canvas2d diagram); [reflexivity|exact Hd].
Defined.

Lemma render_weighted_voronoi_empty_cell_witness :
  computePowerDiagram qhHidden hiddenSites
  = Ok [[{| x := 2; y := 2 |}]; [{| x := 2; y := 2 |}]; [{| x := 2; y := 2 |}]; []] /\
  snd (render_weighted_voronoi qhHidden hiddenSites boundingSquare canvas2d)
  = Throw TypeError /\
  Forall (fun op => isArc op = false)
         (fst (render_weighted_voronoi qhHidden hiddenSites boundingSquare canvas2d)).
Proof.
  assert (Hd : computePowerDiagram qhHidden hiddenSites
               = Ok [[{| x := 2; y := 2 |}]; [{| x := 2; y := 2 |}];
                     [{| x := 2; y := 2 |}]; []])
    by (vm_compute; reflexivity).
  split; [exact Hd|].
  apply (render_weighted_voronoi_empty_cell qhHidden hiddenSites boundingSquare canvas2d
           _ eq_refl Hd).
  right. right. right. left. reflexivity.
Defined.

Lemma render_weighted_voronoi_discs_witness :
  exists diagram,
    computePowerDiagram qhTetrahedron exampleSites = Ok diagram /\
    snd (render_weighted_voronoi qhTetrahedron exampleSites boundingSquare canvas2d)
    = Ok tt /\
    List.filter isArc
      (fst (render_weighted_voronoi qhTetrahedron exampleSites boundingSquare canvas2d))
    = List.map (fun site : Site => ctx_arc (x site) (y site) 6 0 (2 * Math_PI))
               exampleSites
      ++ List.map (fun p : Point2D => ctx_arc (x p) (y p) 2 0 (2 * Math_PI))
                  (concat diagram).
Proof.
  destruct (computePowerDiagram qhTetrahedron exampleSites) as [diagram|] eqn:Hd;
    [|discriminate].
  exists diagram. split; [reflexivity|].
  apply (render_weighted_voronoi_discs qhTetrahedron exampleSites boundingSquare canvas2d
           diagram eq_refl Hd); [discriminate|].
  vm_compute in Hd. inversion Hd. repeat constructor; discriminate.
Defined.

(** *** The other lifting ([transformSiteTo3D]) *)

(** X25. [transformSiteTo3D] keeps [x] and [y]; for a negative weight its third
    coordinate is [NaN], as in [transformSiteToDualSpace]. *)
Theorem transformSiteTo3D_negative_weight (site : Site) :
  (weight site <? 0) = true ->
  x (transformSiteTo3D site) = x site /\
  y (transformSiteTo3D site) = y site /\
  z (transformSiteTo3D site) = nan.
Proof.
  intros H. unfold transformSiteTo3D. simpl. split; [reflexivity|].
  split; [reflexivity|].
  rewrite (sqrt_negative _ H). change (sq nan) with nan. apply add_nan_r.
Qed.

Lemma transformSiteTo3D_negative_weight_witness :
  x (transformSiteTo3D negativeSite) = 3 /\
  y (transformSiteTo3D negativeSite) = 4 /\
  z (transformSiteTo3D negativeSite) = nan.
Proof. apply (transformSiteTo3D_negative_weight negativeSite). reflexivity. Defined.

End PowerDiagramProps.

(** ** Sutherland-Hodgman clipping *)

Module PolyClipProps.

Import PowerDiagram PolyClip PolyClipSpec.

Lemma push_lookup_eq (h : store) (r : ref) p l :
  h !! r = Some l -> push h r p !! r = Some (l ++ [p]).
Proof. intros H. unfold push. now rewrite lookup_alter_eq, H. Qed.

Lemma push_lookup_ne (h : store) (r r' : ref) p :
  r' <> r -> push h r p !! r' = h !! r'.
Proof. intros H. unfold push. rewrite lookup_alter_ne; [reflexivity|congruence]. Qed.

(** The pushes of one turn of the inner loop append the value-level
    vertices to the output array and touch no other array. *)
Lemma clipVertex_spec edgeStart edgeEnd (o : ref) S' E (h : store) l :
  h !! o = Some l ->
  clipVertex edgeStart edgeEnd o S' E h !! o
    = Some (l ++ clipVertexV edgeStart edgeEnd S' E) /\
  forall r, r <> o -> clipVertex edgeStart edgeEnd o S' E h !! r = h !! r.
Proof.
  intros Ho. unfold clipVertex, clipVertexV.
  destruct (inside E edgeStart edgeEnd), (inside S' edgeStart edgeEnd); simpl.
  - split; [apply push_lookup_eq; exact Ho|].
    intros r Hr. apply push_lookup_ne, Hr.
  - split.
    + erewrite push_lookup_eq; [|apply push_lookup_eq; exact Ho].
      rewrite <- app_assoc. reflexivity.
    + intros r Hr. rewrite !push_lookup_ne by exact Hr. reflexivity.
  - split; [apply push_lookup_eq; exact Ho|].
    intros r Hr. apply push_lookup_ne, Hr.
  - split; [rewrite app_nil_r; exact Ho|]. reflexivity.
Qed.

Lemma clipVertices_spec edgeStart edgeEnd (o : ref) input :
  forall S' (h : store) l,
    h !! o = Some l ->
    clipVertices edgeStart edgeEnd o S' input h !! o
      = Some (l ++ clipVerticesV edgeStart edgeEnd S' input) /\
    forall r, r <> o -> clipVertices edgeStart edgeEnd o S' input h !! r = h !! r.
Proof.
  induction input as [|E rest IH]; simpl; intros S' h l Ho.
  - split; [rewrite app_nil_r; exact Ho|]. reflexivity.
  - destruct (clipVertex_spec edgeStart edgeEnd o S' E h l Ho) as [H1 H2].
    destruct (IH E _ _ H1) as [H3 H4]. split.
    + rewrite H3, <- app_assoc. reflexivity.
    + intros r Hr. rewrite H4, H2 by exact Hr. reflexivity.
Qed.

(** One clip edge: the new output array is a fresh one, it ends up holding
    the value-level result, and every array of the store before is as it
    was. *)
Lemma clipEdge_spec (boundary : list Point2D) (h : store) (o : ref) input i :
  h !! o = Some input ->
  fst (clipEdge boundary (h, o) i) !! snd (clipEdge boundary (h, o) i)
    = Some (clipEdgeV boundary input i) /\
  forall r l, h !! r = Some l -> fst (clipEdge boundary (h, o) i) !! r = Some l.
Proof.
  intros Ho. unfold clipEdge, clipEdgeV.
  destruct (boundary !! i) as [edgeStart|]; [|auto].
  destruct (boundary !! ((i + 1) mod length boundary)%nat) as [edgeEnd|]; [|auto].
  unfold alloc. set (o' := fresh (dom h)).
  assert (Hfresh : h !! o' = None).
  { apply not_elem_of_dom. apply is_fresh. }
  assert (Hne : o <> o') by congruence.
  rewrite lookup_insert_ne by congruence. rewrite Ho. simpl.
  assert (Hframe : forall r l, h !! r = Some l -> <[o' := []]> h !! r = Some l).
  { intros r l Hr. rewrite lookup_insert_ne; [exact Hr|congruence]. }
  destruct (last input) as [S'|]; simpl.
  - destruct (clipVertices_spec edgeStart edgeEnd o' input S' (<[o' := []]> h) [])
      as [H1 H2].
    { apply lookup_insert_eq. }
    split; [exact H1|].
    intros r l Hr. rewrite H2; [auto|congruence].
  - split; [apply lookup_insert_eq|exact Hframe].
Qed.

Lemma clipEdges_spec (boundary : list Point2D) (ixs : list nat) :
  forall (h : store) (o : ref) input,
    h !! o = Some input ->
    fst (fold_left (clipEdge boundary) ixs (h, o))
      !! snd (fold_left (clipEdge boundary) ixs (h, o))
      = Some (fold_left (clipEdgeV boundary) ixs input) /\
    forall r l, h !! r = Some l ->
                fst (fold_left (clipEdge boundary) ixs (h, o)) !! r = Some l.
Proof.
  induction ixs as [|i ixs IH]; cbn [fold_left]; intros h o input Ho.
  - simpl. auto.
  - destruct (clipEdge_spec boundary h o input i Ho) as [H1 H2].
    destruct (clipEdge boundary (h, o) i) as [h1 o1]. simpl in H1, H2.
    destruct (IH h1 o1 _ H1) as [H3 H4]. split; [exact H3|].
    intros r l Hr. apply H4, H2, Hr.
Qed.

(** The store-level [clipPolygon] computes the value-level one. *)
Lemma clipPolygon_value (h : store) (polygon clippingBoundary : ref) vertices boundary :
  h !! polygon = Some vertices ->
  h !! clippingBoundary = Some boundary ->
  fst (clipPolygon h polygon clippingBoundary)
    !! snd (clipPolygon h polygon clippingBoundary)
  = Some (clipPolygonV vertices boundary).
Proof.
  intros Hp Hc. unfold clipPolygon, clipPolygonV. rewrite Hc. simpl.
  destruct (clipEdges_spec boundary (seq 0 (length boundary)) h polygon _ Hp)
    as [H _].
  exact H.
Qed.

(** C9. With an empty clipping boundary the loop over the edges does not
    run: [clipPolygon] returns the very array it was given, and the store,
    so the vertices of that array, are what they were. *)
Theorem clipPolygon_empty_boundary (h : store) (polygon clippingBoundary : ref) vertices :
  h !! polygon = Some vertices ->
  h !! clippingBoundary = Some [] ->
  clipPolygon h polygon clippingBoundary = (h, polygon) /\
  fst (clipPolygon h polygon clippingBoundary)
    !! snd (clipPolygon h polygon clippingBoundary) = Some vertices /\
  clipPolygonV vertices [] = vertices.
Proof.
  intros Hp Hc.
  assert (H : clipPolygon h polygon clippingBoundary = (h, polygon)).
  { unfold clipPolygon. rewrite Hc. reflexivity. }
  rewrite H. simpl. auto.
Qed.

(** C10. [clipPolygon] changes no array that was in the store before the
    call, the two arguments among them (also when they are one array): all
    its pushes go to arrays it allocated. *)
Theorem clipPolygon_leaves_arguments (h : store) (polygon clippingBoundary : ref)
    vertices boundary :
  h !! polygon = Some vertices ->
  h !! clippingBoundary = Some boundary ->
  let h' := fst (clipPolygon h polygon clippingBoundary) in
  h' !! polygon = Some vertices /\
  h' !! clippingBoundary = Some boundary /\
  forall r l, h !! r = Some l -> h' !! r = Some l.
Proof.
  intros Hp Hc. unfold clipPolygon. rewrite Hc. simpl.
  destruct (clipEdges_spec boundary (seq 0 (length boundary)) h polygon _ Hp)
    as [_ H].
  auto.
Qed.

Lemma clipPolygon_empty_boundary_witness :
  storeE !! 0%nat = Some triangleC /\
  storeE !! 1%nat = Some [] /\
  clipPolygon storeE 0 1 = (storeE, 0%nat) /\
  fst (clipPolygon storeE 0 1) !! snd (clipPolygon storeE 0 1) = Some triangleC /\
  clipPolygonV triangleC [] = triangleC.
Proof.
  split; [reflexivity|]. split; [reflexivity|].
  apply (clipPolygon_empty_boundary storeE 0 1 triangleC); reflexivity.
Defined.

Lemma clipPolygon_leaves_arguments_witness :
  storeC !! 0%nat = Some triangleC /\
  storeC !! 1%nat = Some boxC /\
  let h' := fst (clipPolygon storeC 0 1) in
  h' !! 0%nat = Some triangleC /\
  h' !! 1%nat = Some boxC /\
  forall r l, storeC !! r = Some l -> h' !! r = Some l.
Proof.
  split; [reflexivity|]. split; [reflexivity|].
  apply (clipPolygon_leaves_arguments storeC 0 1 triangleC boxC); reflexivity.
Defined.

(** C6, on scenario C.  The triangle clipped against the box should stay
    in [[2, 8] x [2, 8]]; [clipPolygon] returns five vertices of which four
    are outside the box.  The first crossing already is: the subject edge
    from [(5, 10)] to [(0, 0)] meets the line [y = 2] at [(1, 2)], and
    [computeIntersection] answers [(9, 18)], because [t] has the sign of the
    parameter of the crossing reversed. *)
Theorem clipPolygon_scenarioC_outside_box :
  let result := [P 6 12; P 10 20; P 2 4; P 14 (-8); P 22 (-24)] in
  fst (clipPolygon storeC 0 1) !! snd (clipPolygon storeC 0 1) = Some result /\
  clipPolygonV triangleC boxC = result /\
  List.map (within boxC) result = [false; false; true; false; false] /\
  computeIntersection (P 5 10) (P 0 0) (P 2 2) (P 8 2) = P 9 18.
Proof. vm_compute. repeat split. Qed.

(** C7, on a subject edge that lies on the line of a clip edge.  For the
    clip edge from [(0.1, 0.2)] to [(1.1, 1.2)] and the subject edge from
    [(1, 1.1)] to [(0.2, 0.3)], [denom] is [0] while the two ends test on
    different sides; [computeIntersection] returns the origin and
    [clipPolygon] pushes it: the result starts with [(0, 0)], which is not
    in the clip triangle. *)
Theorem clipPolygon_pushes_origin_for_parallel_edge :
  let S' := P 1 1.1 in
  let E := P 0.2 0.3 in
  let edgeStart := P 0.1 0.2 in
  let edgeEnd := P 1.1 1.2 in
  let result := [P 0 0; P 0.6000000000000001 0.09999999999999998; P 1 1.1] in
  (denomOf S' E edgeStart edgeEnd =? 0) = true /\
  inside S' edgeStart edgeEnd = true /\
  inside E edgeStart edgeEnd = false /\
  computeIntersection S' E edgeStart edgeEnd = P 0 0 /\
  clipVertexV edgeStart edgeEnd S' E = [P 0 0] /\
  fold_left (clipEdgeV clipP) [0; 1]%nat subjectP = subjectP /\
  clipEdgeV clipP subjectP 2 = result /\
  clipPolygonV subjectP clipP = result /\
  fst (clipPolygon storeP 0 1) !! snd (clipPolygon storeP 0 1) = Some result /\
  within clipP (P 0 0) = false.
Proof. vm_compute. repeat split. Qed.

(** *** More on [clipPolygon] *)

Lemma clipVerticesV_all_inside edgeStart edgeEnd (input : list Point2D) :
  forall S',
    inside S' edgeStart edgeEnd = true ->
    Forall (fun p => inside p edgeStart edgeEnd = true) input ->
    clipVerticesV edgeStart edgeEnd S' input = input.
Proof.
  induction input as [|E rest IH]; simpl; intros S' HS Hall; [reflexivity|].
  inversion Hall as [|? ? HE Hrest]; subst.
  unfold clipVertexV. rewrite HE, HS. simpl. f_equal. now apply IH.
Qed.

Lemma clipVerticesV_none_inside edgeStart edgeEnd (input : list Point2D) :
  forall S',
    inside S' edgeStart edgeEnd = false ->
    Forall (fun p => inside p edgeStart edgeEnd = false) input ->
    clipVerticesV edgeStart edgeEnd S' input = [].
Proof.
  induction input as [|E rest IH]; simpl; intros S' HS Hall; [reflexivity|].
  inversion Hall as [|? ? HE Hrest]; subst.
  unfold clipVertexV. rewrite HE, HS. simpl. now apply IH.
Qed.

Lemma last_In (input : list Point2D) S' : last input = Some S' -> In S' input.
Proof.
  intros H. apply last_Some in H as [l' ->]. apply in_or_app. right. now left.
Qed.

Lemma clipEdgeV_nil (boundary : list Point2D) i : clipEdgeV boundary [] i = [].
Proof.
  unfold clipEdgeV. destruct (boundary !! i); [|reflexivity].
  destruct (boundary !! _); reflexivity.
Qed.

Lemma clipEdgesV_nil (boundary : list Point2D) (ixs : list nat) :
  fold_left (clipEdgeV boundary) ixs [] = [].
Proof.
  induction ixs as [|i ixs IH]; simpl; [reflexivity|].
  now rewrite clipEdgeV_nil.
Qed.

Lemma clipEdgesV_all_inside (boundary vertices : list Point2D) (ixs : list nat) :
  (forall i, In i ixs ->
     match boundary !! i, boundary !! ((i + 1) mod length boundary)%nat with
     | Some edgeStart, Some edgeEnd =>
         Forall (fun p => inside p edgeStart edgeEnd = true) vertices
     | _, _ => True
     end) ->
  fold_left (clipEdgeV boundary) ixs vertices = vertices.
Proof.
  induction ixs as [|i ixs IH]; simpl; intros H; [reflexivity|].
  assert (Hi : clipEdgeV boundary vertices i = vertices).
  { specialize (H i (or_introl eq_refl)). unfold clipEdgeV.
    destruct (boundary !! i) as [edgeStart|]; [|reflexivity].
    destruct (boundary !! _) as [edgeEnd|]; [|reflexivity].
    destruct (last vertices) as [S'|] eqn:Hlast.
    - apply clipVerticesV_all_inside; [|exact H].
      rewrite List.Forall_forall in H. apply H. now apply last_In.
    - apply last_None in Hlast. now subst. }
  rewrite Hi. apply IH. intros j Hj. apply H. now right.
Qed.

(** X1. A polygon whose vertices are all strictly inside every clip edge comes
    back vertex for vertex, in the same order. *)
Theorem clipPolygon_all_inside (h : store) (polygon clippingBoundary : ref)
    vertices boundary :
  h !! polygon = Some vertices ->
  h !! clippingBoundary = Some boundary ->
  Forall (fun p => insideAll boundary p = true) vertices ->
  fst (clipPolygon h polygon clippingBoundary)
    !! snd (clipPolygon h polygon clippingBoundary) = Some vertices /\
  clipPolygonV vertices boundary = vertices.
Proof.
  intros Hp Hc Hall.
  assert (HV : clipPolygonV vertices boundary = vertices).
  { unfold clipPolygonV. apply clipEdgesV_all_inside. intros i Hi.
    destruct (boundary !! i) as [edgeStart|] eqn:Hs; [|exact I].
    destruct (boundary !! ((i + 1) mod length boundary)%nat) as [edgeEnd|] eqn:He;
      [|exact I].
    eapply List.Forall_impl; [|exact Hall]. intros p Hin.
    unfold insideAll in Hin. rewrite forallb_forall in Hin.
    specialize (Hin i Hi). now rewrite Hs, He in Hin. }
  split; [|exact HV].
  now rewrite (clipPolygon_value h polygon clippingBoundary _ _ Hp Hc), HV.
Qed.

Lemma clipPolygon_all_inside_witness :
  storeS !! 0%nat = Some innerSquare /\
  storeS !! 1%nat = Some boxC /\
  Forall (fun p => insideAll boxC p = true) innerSquare /\
  fst (clipPolygon storeS 0 1) !! snd (clipPolygon storeS 0 1) = Some innerSquare /\
  clipPolygonV innerSquare boxC = innerSquare.
Proof.
  split; [reflexivity|]. split; [reflexivity|].
  split; [repeat constructor|].
  apply (clipPolygon_all_inside storeS 0 1 innerSquare boxC);
    [reflexivity|reflexivity|repeat constructor].
Defined.

(** X2. When no vertex of the subject is inside the first clip edge, an empty
    subject among them, the result is the empty polygon. *)
Theorem clipPolygon_none_inside_first_edge (h : store) (polygon clippingBoundary : ref)
    vertices boundary edgeStart edgeEnd :
  h !! polygon = Some vertices ->
  h !! clippingBoundary = Some boundary ->
  boundary !! 0%nat = Some edgeStart ->
  boundary !! (1 mod length boundary)%nat = Some edgeEnd ->
  Forall (fun p => inside p edgeStart edgeEnd = false) vertices ->
  fst (clipPolygon h polygon clippingBoundary)
    !! snd (clipPolygon h polygon clippingBoundary) = Some [] /\
  clipPolygonV vertices boundary = [].
Proof.
  intros Hp Hc Hs He Hall.
  assert (HV : clipPolygonV vertices boundary = []).
  { unfold clipPolygonV. destruct boundary as [|v rest]; [discriminate|].
    cbn [length seq fold_left].
    assert (H0 : clipEdgeV (v :: rest) vertices 0 = []).
    { unfold clipEdgeV. change (0 + 1)%nat with 1%nat. rewrite Hs, He.
      destruct (last vertices) as [S'|] eqn:Hlast; [|reflexivity].
      apply clipVerticesV_none_inside; [|exact Hall].
      rewrite List.Forall_forall in Hall. apply Hall. now apply last_In. }
    rewrite H0. apply clipEdgesV_nil. }
  split; [|exact HV].
  now rewrite (clipPolygon_value h polygon clippingBoundary _ _ Hp Hc), HV.
Qed.

Lemma clipPolygon_none_inside_first_edge_witness :
  storeL !! 0%nat = Some lowTriangle /\
  storeL !! 1%nat = Some boxC /\
  Forall (fun p => inside p (P 2 2) (P 8 2) = false) lowTriangle /\
  fst (clipPolygon storeL 0 1) !! snd (clipPolygon storeL 0 1) = Some [] /\
  clipPolygonV lowTriangle boxC = [].
Proof.
  split; [reflexivity|]. split; [reflexivity|].
  split; [repeat constructor|].
  apply (clipPolygon_none_inside_first_edge storeL 0 1 lowTriangle boxC (P 2 2) (P 8 2));
    [reflexivity|reflexivity|reflexivity|reflexivity|repeat constructor].
Defined.

(** A clip edge from a vertex to itself has nothing inside it. *)
Lemma inside_degenerate_edge (p v : Point2D) : inside p v v = false.
Proof.
  unfold inside. apply ltb_zero_or_nan; apply mul_zero_or_nan_l; apply sub_diag_spec.
Qed.

(** X3. A clipping boundary of a single vertex clips every polygon to the empty
    polygon. *)
Theorem clipPolygon_single_vertex_boundary (h : store) (polygon clippingBoundary : ref)
    vertices v :
  h !! polygon = Some vertices ->
  h !! clippingBoundary = Some [v] ->
  fst (clipPolygon h polygon clippingBoundary)
    !! snd (clipPolygon h polygon clippingBoundary) = Some [].
Proof.
  intros Hp Hc.
  rewrite (clipPolygon_value h polygon clippingBoundary _ _ Hp Hc).
  f_equal. unfold clipPolygonV. cbn [length seq fold_left].
  unfold clipEdgeV. simpl.
  destruct (last vertices) as [S'|]; [|reflexivity].
  apply clipVerticesV_none_inside; [apply inside_degenerate_edge|].
  apply List.Forall_forall. intros p _. apply inside_degenerate_edge.
Qed.

Lemma clipPolygon_single_vertex_boundary_witness :
  storeV !! 0%nat = Some triangleC /\
  storeV !! 1%nat = Some [P 2 2] /\
  fst (clipPolygon storeV 0 1) !! snd (clipPolygon storeV 0 1) = Some [].
Proof.
  split; [reflexivity|]. split; [reflexivity|].
  apply (clipPolygon_single_vertex_boundary storeV 0 1 triangleC (P 2 2));
    reflexivity.
Defined.

Lemma clipEdge_fresh (boundary : list Point2D) (h : store) (o : ref) i :
  (i < length boundary)%nat ->
  h !! snd (clipEdge boundary (h, o) i) = None.
Proof.
  intros Hi. unfold clipEdge.
  destruct (lookup_lt_is_Some_2 boundary i Hi) as [edgeStart ->].
  assert (Hj : ((i + 1) mod length boundary < length boundary)%nat)
    by (apply Nat.mod_upper_bound; lia).
  destruct (lookup_lt_is_Some_2 boundary _ Hj) as [edgeEnd ->].
  unfold alloc. cbv zeta.
  destruct (last (default [] (<[fresh (dom h) := []]> h !! o))); simpl;
    apply not_elem_of_dom, is_fresh.
Qed.

Lemma clipEdges_fresh (boundary : list Point2D) (ixs : list nat) :
  forall (h : store) (o : ref) input,
    h !! o = Some input ->
    ixs <> [] ->
    Forall (fun i => (i < length boundary)%nat) ixs ->
    h !! snd (fold_left (clipEdge boundary) ixs (h, o)) = None.
Proof.
  induction ixs as [|i ixs IH]; cbn [fold_left]; intros h o input Ho Hne Hall;
    [congruence|].
  inversion Hall as [|? ? Hi Hrest]; subst.
  pose proof (clipEdge_fresh boundary h o i Hi) as Hfresh.
  destruct (clipEdge_spec boundary h o input i Ho) as [H1 H2].
  destruct (clipEdge boundary (h, o) i) as [h1 o1]. simpl in *.
  destruct ixs as [|j ixs']; [exact Hfresh|].
  assert (Hn : h1 !! snd (fold_left (clipEdge boundary) (j :: ixs') (h1, o1)) = None)
    by (eapply IH; [exact H1|congruence|exact Hrest]).
  destruct (h !! snd (fold_left (clipEdge boundary) (j :: ixs') (h1, o1)))
    as [l|] eqn:Hl; [|reflexivity].
  apply H2 in Hl. congruence.
Qed.

(** X4. With a clipping boundary of at least one vertex the result is an array
    made by the call: it is none of the arrays that existed before, so it is
    neither of the two arguments. *)
Theorem clipPolygon_result_is_new (h : store) (polygon clippingBoundary : ref)
    vertices boundary :
  h !! polygon = Some vertices ->
  h !! clippingBoundary = Some boundary ->
  boundary <> [] ->
  h !! snd (clipPolygon h polygon clippingBoundary) = None /\
  snd (clipPolygon h polygon clippingBoundary) <> polygon /\
  snd (clipPolygon h polygon clippingBoundary) <> clippingBoundary.
Proof.
  intros Hp Hc Hne.
  assert (Hnew : h !! snd (clipPolygon h polygon clippingBoundary) = None).
  { unfold clipPolygon. rewrite Hc. simpl.
    eapply clipEdges_fresh; [exact Hp| |].
    - destruct boundary; [congruence|discriminate].
    - apply List.Forall_forall. intros i Hi. apply in_seq in Hi. lia. }
  split; [exact Hnew|]. split; intros Heq; rewrite Heq in Hnew; congruence.
Qed.

Lemma clipPolygon_result_is_new_witness :
  storeS !! 0%nat = Some innerSquare /\
  storeS !! 1%nat = Some boxC /\
  boxC <> [] /\
  storeS !! snd (clipPolygon storeS 0 1) = None /\
  snd (clipPolygon storeS 0 1) <> 0%nat /\
  snd (clipPolygon storeS 0 1) <> 1%nat.
Proof.
  split; [reflexivity|]. split; [reflexivity|]. split; [discriminate|].
  apply (clipPolygon_result_is_new storeS 0 1 innerSquare boxC);
    [reflexivity|reflexivity|discriminate].
Defined.

End PolyClipProps.

(** ** The relaxation driver *)

Module WeightedVoronoiProps.

Import WeightedVoronoi WeightedVoronoiSpec.

(** X8. [polygonClip] skips the intersection of parallel edges: when the
    divisor of [ua] is zero the first coordinate of the intersection is not
    finite and nothing is pushed. *)
Lemma pushIntersection_zero_divisor (c d a b : Point) (subject : Points) :
  (uaDivisor c d a b =? 0) = true ->
  pushIntersection (Some c) (Some d) (Some a) (Some b) subject = Ok subject.
Proof.
  intros H. unfold pushIntersection, polygonIntersect. simpl.
  rewrite add_not_finite_r; [reflexivity|].
  apply mul_not_finite_l, div_zero_not_finite, H.
Qed.

Section WithHost.

Variable qh : list Vector3 -> bool -> result (list (list nat)).
Variable random : nat -> float.

(** The guard [if (sites.length < 4) return []]. *)
Lemma computePowerDiagram_guard (sites : list Site) (omega : list Point) :
  (length sites <? 4)%nat = true ->
  computePowerDiagram qh sites omega = Ok [].
Proof. intros H. unfold computePowerDiagram. now rewrite H. Qed.

(** The class's own [computePowerDiagram] has the guard: with fewer than
    four sites it returns the empty list of cells; the hull routine is not
    called, so nothing it could throw is thrown. *)
Theorem computePowerDiagram_fewer_than_four_sites (sites : list Site) (omega : list Point) :
  (length sites < 4)%nat ->
  computePowerDiagram qh sites omega = Ok [].
Proof.
  intros H. apply computePowerDiagram_guard. now apply Nat.ltb_lt.
Qed.

(** With four sites or more the cells are one per hull face, not one per
    site. *)
Lemma computePowerDiagram_one_cell_per_face (sites : list Site) (omega : list Point)
    cells :
  (4 <= length sites)%nat ->
  computePowerDiagram qh sites omega = Ok cells ->
  exists convexHull : list (list nat), length cells = length convexHull.
Proof.
  intros H. unfold computePowerDiagram.
  apply Nat.ltb_ge in H. rewrite H.
  destruct (qh _ false) as [convexHull|]; [|discriminate]. simpl.
  intros Hc. exists convexHull. now apply mapM'_length in Hc.
Qed.

Lemma relaxRun_outcome (this : WeightedVoronoi) (remaining : nat) :
  forall diagram,
    outcome (relaxRun qh this remaining diagram) = relax qh this remaining diagram.
Proof.
  induction remaining as [|n IH]; simpl; intros diagram; [reflexivity|].
  destruct (relaxOnce qh this diagram) as [r|e]; simpl; [|reflexivity].
  destruct (snd r <? ethreshold this); simpl; [reflexivity|apply IH].
Qed.

Lemma relaxRun_bounded (this : WeightedVoronoi) (remaining : nat) :
  forall diagram,
    (iterations (relaxRun qh this remaining diagram) <= remaining)%nat /\
    (length (errors (relaxRun qh this remaining diagram))
     <= iterations (relaxRun qh this remaining diagram))%nat.
Proof.
  induction remaining as [|n IH]; simpl; intros diagram; [lia|].
  destruct (relaxOnce qh this diagram) as [r|e]; simpl; [|lia].
  destruct (snd r <? ethreshold this); simpl; [lia|].
  specialize (IH (fst r)). lia.
Qed.

(** An error below the threshold ends the run, and no other error is below
    it. *)
Lemma relaxRun_stops (this : WeightedVoronoi) (remaining : nat) :
  forall diagram k e,
    errors (relaxRun qh this remaining diagram) !! k = Some e ->
    ((e <? ethreshold this) = true ->
     iterations (relaxRun qh this remaining diagram) = S k /\
     length (errors (relaxRun qh this remaining diagram)) = S k /\
     exists d, outcome (relaxRun qh this remaining diagram) = Ok d) /\
    ((S k < iterations (relaxRun qh this remaining diagram))%nat ->
     (e <? ethreshold this) = false).
Proof.
  induction remaining as [|n IH]; simpl; intros diagram k e Hk; [discriminate|].
  destruct (relaxOnce qh this diagram) as [r|ex]; simpl in *; [|discriminate].
  destruct (snd r <? ethreshold this) eqn:Hlt; simpl in *.
  - destruct k as [|k]; [|discriminate]. inversion Hk; subst e.
    split; [eauto|lia].
  - destruct k as [|k]; simpl in Hk.
    + inversion Hk; subst e. split; [congruence|auto].
    + destruct (IH _ _ _ Hk) as [H1 H2]. split.
      * intros He. destruct (H1 He) as (-> & -> & Hd). auto.
      * intros Hlt'. apply H2. lia.
Qed.

(** A run that returns a diagram went through all [IMAX] turns or ended on
    an error below the threshold. *)
Lemma relaxRun_returns (this : WeightedVoronoi) (remaining : nat) :
  forall diagram d,
    outcome (relaxRun qh this remaining diagram) = Ok d ->
    iterations (relaxRun qh this remaining diagram) = remaining \/
    exists e, last (errors (relaxRun qh this remaining diagram)) = Some e /\
              (e <? ethreshold this) = true.
Proof.
  induction remaining as [|n IH]; simpl; intros diagram d Hd; [auto|].
  destruct (relaxOnce qh this diagram) as [r|ex]; simpl in *; [|discriminate].
  destruct (snd r <? ethreshold this) eqn:Hlt; simpl in *.
  - right. eauto.
  - destruct (IH _ _ Hd) as [->|(e & He & Hlt')]; [auto|].
    right. exists e. split; [|exact Hlt'].
    destruct (errors (relaxRun qh this n (fst r))); [discriminate|exact He].
Qed.

(** C8. [compute] is a total function: it returns a diagram or throws.  It
    starts at most [IMAX = 50] turns of the relaxation loop; the turn whose
    error is below [ethreshold] is the last one, and every turn before the
    last had an error that is not below it.  When it returns, it has done
    all 50 turns or the last error is below the threshold.  The threshold
    is [0.001] when the constructor is given none. *)
Theorem compute_at_most_IMAX_iterations (this : WeightedVoronoi) :
  let run := computeRun qh random this in
  IMAX = 50%nat /\
  outcome run = compute qh random this /\
  (iterations run <= IMAX)%nat /\
  (forall k e, errors run !! k = Some e ->
     (e <? ethreshold this) = true ->
     iterations run = S k /\ length (errors run) = S k /\
     exists diagram, compute qh random this = Ok diagram) /\
  (forall k e, errors run !! k = Some e ->
     (S k < iterations run)%nat -> (e <? ethreshold this) = false) /\
  (forall diagram, compute qh random this = Ok diagram ->
     iterations run = IMAX \/
     exists e, last (errors run) = Some e /\ (e <? ethreshold this) = true) /\
  (forall omega sites, ethreshold (constructor omega sites None) = 0.001).
Proof.
  intros run. unfold run, computeRun, compute, bind.
  destruct (initializeDiagram qh random this) as [diagram|ex];
    [|simpl; repeat (split; try reflexivity; try discriminate); lia].
  - split; [reflexivity|]. split; [apply relaxRun_outcome|].
    split; [apply relaxRun_bounded|].
    rewrite <- relaxRun_outcome.
    split; [intros k e Hk; apply (relaxRun_stops _ _ _ _ _ Hk)|].
    split; [intros k e Hk; apply (relaxRun_stops _ _ _ _ _ Hk)|].
    split; [apply relaxRun_returns|reflexivity].
Qed.

(** With one to three sites the initial diagram is empty and the first turn
    of the loop reads a vertex list off a missing cell: [compute] throws. *)
Lemma compute_few_sites_throws (omega : list Point) (site : Site) (sites : list Site) :
  (length (site :: sites) < 4)%nat ->
  compute qh random (constructor omega (site :: sites) None) = Throw TypeError.
Proof.
  intros H. unfold compute, initializeDiagram.
  rewrite computePowerDiagram_guard
    by (rewrite length_map, length_seq; apply Nat.ltb_lt; exact H).
  reflexivity.
Qed.

End WithHost.

(** Two runs of [compute] on [fourSites]: with the default threshold the
    error stays at 1 and the loop is left after its 50 turns; with the
    threshold 2 the first turn is the last. *)
Lemma compute_example_all_turns :
  let run := computeRun qhTetrahedron randomHalf (constructor squareOmega fourSites None) in
  iterations run = 50%nat /\ errors run = repeat 1 50 /\
  outcome run = Ok [[]; []; []; []].
Proof. vm_compute. repeat split. Qed.

Lemma compute_example_early_stop :
  let run := computeRun qhTetrahedron randomHalf
               (constructor squareOmega fourSites (Some 2)) in
  iterations run = 1%nat /\ errors run = [1] /\ outcome run = Ok [[]; []; []; []].
Proof. vm_compute. repeat split. Qed.

(** [polygonClip] on scenario C: the six vertices of the triangle cut to
    the box. *)
Lemma polygonClip_scenarioC :
  polygonClip boxC triangleC
  = Ok [Some (4, 8); Some (2, 4); Some (2, 2); Some (8, 2); Some (8, 4); Some (6, 8)].
Proof. vm_compute. reflexivity. Qed.

Lemma computePowerDiagram_fewer_than_four_sites_witness :
  (length threeSites < 4)%nat /\
  computePowerDiagram qhThrows threeSites squareOmega = Ok [].
Proof.
  split; [simpl; lia|].
  apply (computePowerDiagram_fewer_than_four_sites qhThrows threeSites squareOmega).
  simpl. lia.
Defined.

(** *** More on [polygonClip] *)

(** X5. [polygonClip] reads [coordinates[0]] of both arguments: an empty clip
    polygon or an empty subject is a [TypeError]. *)
Theorem polygonClip_empty_throws (clip subject : Points) :
  polygonClip [] subject = Throw TypeError /\
  polygonClip clip [] = Throw TypeError.
Proof.
  split.
  - unfold polygonClip, polygonClosed.
    destruct (at_ subject 0); [|reflexivity].
    destruct (at_ subject _); reflexivity.
  - reflexivity.
Qed.

Lemma polygonClosed_single (p : Point) : polygonClosed [Some p] = Ok true.
Proof.
  unfold polygonClosed. simpl. now rewrite !truthy_sub_diag.
Qed.

Lemma at_map_Some (l : list Point) (k : Z) :
  (0 <= k < Z.of_nat (length l))%Z ->
  exists p, at_ (List.map Some l) k = Some p.
Proof.
  intros Hk. unfold at_.
  destruct (k <? 0)%Z eqn:E; [apply Z.ltb_lt in E; lia|].
  destruct (lookup_lt_is_Some_2 l (Z.to_nat k)) as [p Hp]; [lia|].
  exists p. change (List.map Some l) with (Some <$> l).
  now rewrite list_lookup_fmap, Hp.
Qed.

Lemma polygonClosed_points (l : list Point) :
  l <> [] -> exists closed, polygonClosed (List.map Some l) = Ok closed.
Proof.
  intros Hne. unfold polygonClosed. rewrite length_map.
  assert (0 < length l)%nat by (destruct l; [congruence|simpl; lia]).
  destruct (at_map_Some l 0) as [a ->]; [lia|].
  destruct (at_map_Some l (Z.of_nat (length l) - 1)) as [b ->]; [lia|].
  eauto.
Qed.

(** X6. A clip polygon of one point has no edge: the subject comes back as it
    is. *)
Theorem polygonClip_single_point_clip (p : Point) (subject : list Point) :
  subject <> [] ->
  polygonClip [Some p] (List.map Some subject) = Ok (List.map Some subject).
Proof.
  intros Hne. unfold polygonClip.
  destruct (polygonClosed_points subject Hne) as [closed ->].
  rewrite polygonClosed_single. reflexivity.
Qed.

Lemma polygonClip_single_point_clip_witness :
  polygonClip [Some (1, 2)] (List.map Some squareOmega)
  = Ok (List.map Some squareOmega).
Proof.
  apply (polygonClip_single_point_clip (1, 2) squareOmega). discriminate.
Defined.

Lemma allPoints_map_Some (l : list Point) : allPoints (List.map Some l).
Proof. apply List.Forall_forall. intros p Hp. apply in_map_iff in Hp as [q [<- _]]. discriminate. Qed.

Lemma allPoints_inv (l : Points) : allPoints l -> exists s, l = List.map Some s.
Proof.
  induction 1 as [|p l Hp _ [s ->]]; [now exists []|].
  destruct p as [p|]; [|congruence]. now exists (p :: s).
Qed.

Lemma allPoints_snoc (l : Points) (p : Point) : allPoints l -> allPoints (l ++ [Some p]).
Proof.
  intros H. apply Forall_app. split; [exact H|]. constructor; [discriminate|constructor].
Qed.

Lemma pushIntersection_points (c d a b : Point) (subject : Points) :
  allPoints subject ->
  exists subject',
    pushIntersection (Some c) (Some d) (Some a) (Some b) subject = Ok subject' /\
    allPoints subject'.
Proof.
  intros H. unfold pushIntersection, polygonIntersect. simpl.
  match goal with |- context [if ?t then _ else _] => destruct t end;
    eexists; (split; [reflexivity|]); [now apply allPoints_snoc|exact H].
Qed.

Lemma clipVertex_points (a b c d : Point) (subject : Points) :
  allPoints subject ->
  exists subject',
    clipVertex (Some a) (Some b) (subject, Some c) (Some d) = Ok (subject', Some d) /\
    allPoints subject'.
Proof.
  intros H. unfold clipVertex, polygonInside. simpl.
  destruct (pushIntersection_points c d a b subject H) as [s' [Hs' Hall]].
  repeat match goal with |- context [if ?t then _ else _] => destruct t; simpl end;
    rewrite ?Hs'; simpl; eexists; (split; [reflexivity|]);
    auto using allPoints_snoc.
Qed.

Lemma clipVertices_points (a b : Point) (input : list Point) :
  forall (subject : Points) (c : Point),
    allPoints subject ->
    exists subject' c',
      foldM (clipVertex (Some a) (Some b)) (List.map Some input) (subject, Some c)
      = Ok (subject', c') /\
      allPoints subject'.
Proof.
  induction input as [|d input IH]; cbn [foldM List.map]; intros subject c H;
    [eauto|].
  destruct (clipVertex_points a b c d subject H) as [s' [-> Hall]]. cbn [bind].
  now apply IH.
Qed.

(** One turn of the outer loop on a subject of points, or on the array
    [[undefined]] that a closed subject leaves when nothing survives. *)
Lemma clipEdge_points (clip : list Point) (closed : bool) (subject : Points)
    (a : Point) (i : nat) :
  (i < length clip)%nat ->
  allPoints subject \/ (closed = true /\ subject = [None]) ->
  exists subject' b,
    clipEdge (List.map Some clip) closed (subject, Some a) i = Ok (subject', Some b) /\
    (allPoints subject' \/ (closed = true /\ subject' = [None])).
Proof.
  intros Hi Hinv. unfold clipEdge.
  destruct (at_map_Some clip (Z.of_nat i)) as [b ->]; [lia|].
  destruct Hinv as [Hall|[-> ->]].
  - apply allPoints_inv in Hall as [s ->]. rewrite length_map.
    set (m := (Z.of_nat (length s) - (if closed then 1 else 0))%Z).
    change (take (Z.to_nat m) (List.map Some s)) with (take (Z.to_nat m) (Some <$> s)).
    rewrite <- fmap_take.
    assert (Hfold : exists subject' c',
               foldM (clipVertex (Some a) (Some b)) (Some <$> take (Z.to_nat m) s)
                     ([], at_ (List.map Some s) (m - 1))
               = Ok (subject', c') /\ allPoints subject').
    { destruct (Z.to_nat m) as [|k] eqn:Ek.
      - rewrite take_0. simpl. exists [], (at_ (List.map Some s) (m - 1)).
        split; [reflexivity|constructor].
      - destruct (at_map_Some s (m - 1)) as [c ->];
          [subst m; destruct closed; lia|].
        apply clipVertices_points. constructor. }
    destruct Hfold as [subject' [c' [-> Hall']]]. simpl.
    exists (if closed then subject' ++ [at_ subject' 0] else subject'), b.
    split; [reflexivity|].
    destruct closed; [|now left].
    apply allPoints_inv in Hall' as [s' ->].
    destruct s' as [|p s']; [right; split; reflexivity|].
    left. simpl. unfold at_. simpl.
    change (Some p :: List.map Some s' ++ [Some p])
      with ((Some p :: List.map Some s') ++ [Some p]).
    apply allPoints_snoc. apply (allPoints_map_Some (p :: s')).
  - simpl. exists [None], b. split; [reflexivity|]. right. split; reflexivity.
Qed.

Lemma clipEdges_points (clip : list Point) (closed : bool) (ixs : list nat) :
  forall (subject : Points) (a : Point),
    Forall (fun i => (i < length clip)%nat) ixs ->
    allPoints subject \/ (closed = true /\ subject = [None]) ->
    exists r,
      foldM (clipEdge (List.map Some clip) closed) ixs (subject, Some a) = Ok r /\
      (allPoints (fst r) \/ (closed = true /\ fst r = [None])).
Proof.
  induction ixs as [|i ixs IH]; cbn [foldM]; intros subject a Hixs Hinv; [eauto|].
  inversion Hixs as [|? ? Hi Hrest]; subst.
  destruct (clipEdge_points clip closed subject a i Hi Hinv) as [s' [b [-> Hinv']]].
  cbn [bind]. now apply IH.
Qed.

Lemma polygonClip_total (clip subject : list Point) :
  clip <> [] -> subject <> [] ->
  exists result,
    polygonClip (List.map Some clip) (List.map Some subject) = Ok result /\
    (allPoints result \/
     (polygonClosed (List.map Some subject) = Ok true /\ result = [None])).
Proof.
  intros Hc Hs. unfold polygonClip.
  destruct (polygonClosed_points subject Hs) as [closed Hclosed].
  destruct (polygonClosed_points clip Hc) as [clipClosed HclipClosed].
  rewrite Hclosed, HclipClosed. cbn [bind]. cbv zeta. rewrite length_map.
  set (n := (Z.of_nat (length clip) - (if clipClosed then 1 else 0))%Z).
  assert (Hlen : (0 < length clip)%nat) by (destruct clip; [congruence|simpl; lia]).
  assert (Hfold : exists r,
             foldM (clipEdge (List.map Some clip) closed) (seq 0 (Z.to_nat n))
                   (List.map Some subject, at_ (List.map Some clip) (n - 1)) = Ok r /\
             (allPoints (fst r) \/ (closed = true /\ fst r = [None]))).
  { destruct (Z.to_nat n) as [|k] eqn:Ek.
    - simpl. eexists. split; [reflexivity|]. left. apply allPoints_map_Some.
    - destruct (at_map_Some clip (n - 1)) as [a ->];
        [subst n; destruct clipClosed; lia|].
      apply clipEdges_points; [|left; apply allPoints_map_Some].
      apply List.Forall_forall. intros i Hi. apply in_seq in Hi.
      subst n. destruct clipClosed; lia. }
  destruct Hfold as [r [Hr Hinv]]. exists (fst r). split.
  - exact (f_equal (fun m => bind m (fun r => Ok (fst r))) Hr).
  - destruct Hinv as [H|[-> H]]; [now left|now right].
Qed.

(** X7. On a clip polygon and a subject that hold points and are not empty,
    [polygonClip] returns, whatever the coordinates: the result holds
    points only, or it is the one-element array [[undefined]], which a
    closed subject leaves when no vertex survives an edge. *)
Theorem polygonClip_returns (clip subject : list Point) :
  clip <> [] -> subject <> [] ->
  exists result,
    polygonClip (List.map Some clip) (List.map Some subject) = Ok result /\
    (allPoints result \/
     (polygonClosed (List.map Some subject) = Ok true /\ result = [None])).
Proof. apply polygonClip_total. Qed.

Lemma polygonClip_returns_witness :
  exists result,
    polygonClip (List.map Some [(2, 8); (8, 8); (8, 2); (2, 2)])
                (List.map Some [(0, 0); (10, 0); (5, 10)]) = Ok result /\
    (allPoints result \/
     (polygonClosed (List.map Some [(0, 0); (10, 0); (5, 10)]) = Ok true /\
      result = [None])).
Proof.
  apply (polygonClip_returns [(2, 8); (8, 8); (8, 2); (2, 2)] [(0, 0); (10, 0); (5, 10)]);
    discriminate.
Defined.

(** *** Areas, centroids and the error *)

Lemma forEdges_TypeError {T} (polygon : Points) (body : T -> Point -> Point -> T)
    (init : T) e :
  forEdges polygon body init = Throw e -> e = TypeError.
Proof.
  unfold forEdges. apply foldM_TypeError. intros s i e'.
  destruct (at_ polygon _); [|congruence].
  destruct (at_ polygon _); congruence.
Qed.

Lemma forEdges_invariant {T} (P : T -> Prop) (polygon : Points)
    (body : T -> Point -> Point -> T) (init r : T) :
  (forall acc p1 p2, P acc -> P (body acc p1 p2)) ->
  P init -> forEdges polygon body init = Ok r -> P r.
Proof.
  intros Hbody Hinit. unfold forEdges.
  apply foldM_invariant; [|exact Hinit].
  intros s i s' Hs.
  destruct (at_ polygon _); [|discriminate].
  destruct (at_ polygon _); [|discriminate].
  intros H. inversion H; subst. now apply Hbody.
Qed.

(** Whether the loop over the edges throws depends on the polygon only. *)
Lemma forEdges_returns {T U} (polygon : Points) (body : T -> Point -> Point -> T)
    (body' : U -> Point -> Point -> U) (init r : T) (init' : U) :
  forEdges polygon body init = Ok r ->
  exists r', forEdges polygon body' init' = Ok r'.
Proof.
  unfold forEdges. remember (seq 0 (length polygon)) as ixs eqn:Hixs. clear Hixs.
  revert init init'.
  induction ixs as [|i ixs IH]; simpl; intros init init' H; [eauto|].
  destruct (at_ polygon (Z.of_nat i)); [|discriminate].
  destruct (at_ polygon (Z.of_nat _)); [|discriminate].
  simpl in *. eapply IH. exact H.
Qed.

Lemma computePolygonArea_TypeError (polygon : option Points) e :
  computePolygonArea polygon = Throw e -> e = TypeError.
Proof.
  destruct polygon as [polygon|]; simpl; [|congruence].
  destruct (forEdges polygon _ 0) eqn:E; simpl; [discriminate|].
  intros H. inversion H; subst. now apply forEdges_TypeError in E.
Qed.

(** X10. The area is never negative, whatever the orientation and the
    coordinates; a missing cell or vertex is a [TypeError]. *)
Theorem computePolygonArea_not_negative (polygon : option Points) :
  match computePolygonArea polygon with
  | Ok area => (area <? 0) = false
  | Throw e => e = TypeError
  end.
Proof.
  destruct (computePolygonArea polygon) as [area|e] eqn:H;
    [|now apply computePolygonArea_TypeError in H].
  destruct polygon as [polygon|]; simpl in H; [|discriminate].
  destruct (forEdges polygon _ 0); simpl in H; [|discriminate].
  inversion H; subst. apply half_not_negative, abs_not_negative.
Qed.

(** X11. A polygon of area zero has no centroid: both coordinates come out as
    an infinity or [NaN]. *)
Theorem computeCentroid_zero_area (polygon : Points) (area : float) :
  computePolygonArea (Some polygon) = Ok area ->
  (area =? 0) = true ->
  exists centroid,
    computeCentroid (Some polygon) = Ok centroid /\
    isFinite (fst centroid) = false /\ isFinite (snd centroid) = false.
Proof.
  intros Harea Hzero. unfold computeCentroid. rewrite Harea. cbn [bind].
  simpl in Harea.
  destruct (forEdges polygon _ 0) as [twice|] eqn:E; [|discriminate].
  match goal with
  | |- context [forEdges polygon ?body ?init] =>
      destruct (forEdges_returns polygon _ body _ _ init E) as [c Hc]; rewrite Hc
  end.
  cbn [bind]. eexists. split; [reflexivity|].
  assert (Hscale : isFinite (1 / (6 * area)) = false)
    by apply div_zero_not_finite, mul_six_zero, Hzero.
  split; apply mul_not_finite_r, Hscale.
Qed.

Lemma computeCentroid_zero_area_witness :
  computePolygonArea (Some flatTriangle) = Ok 0 /\
  exists centroid,
    computeCentroid (Some flatTriangle) = Ok centroid /\
    isFinite (fst centroid) = false /\ isFinite (snd centroid) = false.
Proof.
  split; [reflexivity|].
  apply (computeCentroid_zero_area flatTriangle 0); reflexivity.
Defined.

Lemma computeCentroid_TypeError (polygon : option Points) e :
  computeCentroid polygon = Throw e -> e = TypeError.
Proof.
  unfold computeCentroid.
  destruct (computePolygonArea polygon) as [area|e'] eqn:Ha; cbn [bind].
  - destruct polygon as [polygon|]; [|congruence].
    destruct (forEdges polygon _ (0, 0)) eqn:E; cbn [bind]; [discriminate|].
    intros H. inversion H; subst. now apply forEdges_TypeError in E.
  - intros H. inversion H; subst. now apply computePolygonArea_TypeError in Ha.
Qed.

Lemma distanceToClosestEdge_TypeError point (polygon : option Points) e :
  distanceToClosestEdge point polygon = Throw e -> e = TypeError.
Proof.
  destruct polygon as [polygon|]; simpl; [|congruence].
  apply forEdges_TypeError.
Qed.

Lemma adaptSite_TypeError (sites : list Site) (diagram : list Points) index site e :
  (let cell := diagram !! index in
   let* centroid := computeCentroid cell in
   let* distanceToBoundary := distanceToClosestEdge centroid cell in
   let targetArea := 1 / numOfNat (length sites) in
   let* len := cellLength cell in
   let areaRatio := len / (Math_PI * sq distanceToBoundary) in
   let newWeight := weight site * (1 - targetArea / areaRatio) in
   Ok {| x := fst centroid; y := snd centroid; weight := newWeight |}) = Throw e ->
  e = TypeError.
Proof.
  cbv zeta.
  destruct (computeCentroid _) as [centroid|e1] eqn:E1; cbn [bind];
    [|intros H; inversion H; subst; now apply computeCentroid_TypeError in E1].
  destruct (distanceToClosestEdge _ _) as [dist|e2] eqn:E2; cbn [bind];
    [|intros H; inversion H; subst; now apply distanceToClosestEdge_TypeError in E2].
  destruct (diagram !! index); simpl; congruence.
Qed.

Lemma totalErrorStep_TypeError (sites : list Site) (diagram : list Points)
    (totalError : float) (i : nat) e :
  (let cell := diagram !! i in
   let* area := computePolygonArea cell in
   let targetArea := 1 / numOfNat (length sites) in
   Ok (totalError + abs (area - targetArea))) = Throw e ->
  e = TypeError.
Proof.
  cbv zeta.
  destruct (computePolygonArea _) as [area|e1] eqn:E1; cbn [bind]; [discriminate|].
  intros H. inversion H; subst. now apply computePolygonArea_TypeError in E1.
Qed.

Lemma missing_cell_TypeError (sites : list Site) (diagram : list Points) :
  (length diagram < length sites)%nat ->
  adaptPositionsAndWeights sites diagram = Throw TypeError /\
  calculateTotalError sites diagram = Throw TypeError.
Proof.
  intros Hlen.
  assert (Hcell : diagram !! length diagram = None)
    by (apply lookup_ge_None; lia).
  split.
  - unfold adaptPositionsAndWeights.
    destruct (lookup_lt_is_Some_2 sites (length diagram) Hlen) as [site Hsite].
    apply (mapM'_throws _ _ (length diagram, site)).
    + intros [index s] e. apply adaptSite_TypeError.
    + now apply In_combine_seq.
    + cbv zeta. now rewrite Hcell.
  - unfold calculateTotalError.
    apply (foldM_throws _ _ (length diagram)).
    + intros s i e. apply totalErrorStep_TypeError.
    + apply in_seq. lia.
    + intros s. cbv zeta. now rewrite Hcell.
Qed.

(** X12. A diagram with fewer cells than there are sites: both passes over the
    sites read a missing cell and throw a [TypeError]. *)
Theorem adaptPositionsAndWeights_missing_cell (sites : list Site) (diagram : list Points) :
  (length diagram < length sites)%nat ->
  adaptPositionsAndWeights sites diagram = Throw TypeError /\
  calculateTotalError sites diagram = Throw TypeError.
Proof. apply missing_cell_TypeError. Qed.

Lemma adaptPositionsAndWeights_missing_cell_witness :
  adaptPositionsAndWeights fourSites [[]; []] = Throw TypeError /\
  calculateTotalError fourSites [[]; []] = Throw TypeError.
Proof.
  apply (adaptPositionsAndWeights_missing_cell fourSites [[]; []]). simpl. lia.
Defined.

(** X13. Both passes read the cells at the indices of the sites and no other:
    the cells of a diagram past the number of sites are never looked at. *)
Theorem adaptPositionsAndWeights_ignores_more_cells
    (sites : list Site) (diagram : list Points) :
  adaptPositionsAndWeights sites diagram
  = adaptPositionsAndWeights sites (take (length sites) diagram) /\
  calculateTotalError sites diagram
  = calculateTotalError sites (take (length sites) diagram).
Proof.
  split.
  - unfold adaptPositionsAndWeights. apply mapM'_ext. intros [index site] Hin.
    apply combine_seq_index in Hin. cbv zeta.
    now rewrite (lookup_take_lt diagram _ _ Hin).
  - unfold calculateTotalError. apply foldM_ext. intros s i Hin.
    apply in_seq in Hin. cbv zeta.
    rewrite (lookup_take_lt diagram (length sites) i); [reflexivity|lia].
Qed.

Lemma calculateTotalError_Ok_not_negative (sites : list Site) (diagram : list Points) e :
  calculateTotalError sites diagram = Ok e -> (e <? 0) = false.
Proof.
  unfold calculateTotalError. intros H.
  apply (foldM_invariant (fun v => (v <? 0) = false)) in H;
    [exact H| |reflexivity].
  intros s i s' Hs. cbv zeta.
  destruct (computePolygonArea _) as [area|]; cbn [bind]; [|discriminate].
  intros H'. inversion H'; subst.
  apply add_not_negative; [exact Hs|apply abs_not_negative].
Qed.

(** X15. The total error is never negative, and the pass throws nothing but a
    [TypeError]. *)
Theorem calculateTotalError_not_negative (sites : list Site) (diagram : list Points) :
  match calculateTotalError sites diagram with
  | Ok error => (error <? 0) = false
  | Throw e => e = TypeError
  end.
Proof.
  destruct (calculateTotalError sites diagram) as [error|e] eqn:H.
  - now apply calculateTotalError_Ok_not_negative in H.
  - unfold calculateTotalError in H.
    apply foldM_TypeError in H; [exact H|].
    intros s i e'. apply totalErrorStep_TypeError.
Qed.

(** X14. An empty cell sends its site nowhere: the adapted site has [NaN]
    coordinates and a weight that is an infinity or [NaN]. *)
Theorem adaptPositionsAndWeights_empty_cell
    (sites : list Site) (diagram : list Points) adapted index :
  adaptPositionsAndWeights sites diagram = Ok adapted ->
  (index < length sites)%nat ->
  diagram !! index = Some [] ->
  exists site,
    adapted !! index = Some site /\
    is_nan (x site) = true /\ is_nan (y site) = true /\
    isFinite (weight site) = false.
Proof.
  intros Hadapt Hindex Hcell. unfold adaptPositionsAndWeights in Hadapt.
  destruct (lookup_lt_is_Some_2 sites index Hindex) as [site Hsite].
  pose proof (lookup_combine_seq sites 0 index site Hsite) as Hin. simpl in Hin.
  destruct (mapM'_lookup _ _ _ _ _ Hadapt Hin) as (site' & Hsite' & Hf).
  exists site'. split; [exact Hsite'|].
  cbv beta iota zeta in Hf.
  assert (Hcell' : diagram !! index = Some ([] : Points)) by exact Hcell.
  rewrite Hcell' in Hf.
  change (computeCentroid (Some [])) with (Ok (nan, nan) : result Point) in Hf.
  cbn [bind] in Hf.
  change (distanceToClosestEdge (nan, nan) (Some [])) with (Ok infinity) in Hf.
  cbn [bind cellLength] in Hf.
  inversion Hf; subst site'; clear Hf. simpl.
  split; [reflexivity|]. split; [reflexivity|].
  apply mul_not_finite_r, sub_not_finite_r, div_zero_not_finite. reflexivity.
Qed.

Lemma adaptPositionsAndWeights_empty_cell_witness :
  exists adapted site,
    adaptPositionsAndWeights fourSites [[]; []; []; []] = Ok adapted /\
    adapted !! 2%nat = Some site /\
    is_nan (x site) = true /\ is_nan (y site) = true /\
    isFinite (weight site) = false.
Proof.
  destruct (adaptPositionsAndWeights fourSites [[]; []; []; []]) as [adapted|] eqn:H;
    [|discriminate].
  destruct (adaptPositionsAndWeights_empty_cell fourSites [[]; []; []; []] adapted 2 H)
    as [site Hsite]; [simpl; lia|reflexivity|].
  exists adapted, site. split; [reflexivity|exact Hsite].
Defined.

Section WithHostMore.

Variable qh : list Vector3 -> bool -> result (list (list nat)).
Variable random : nat -> float.

Lemma liftedSites_lookup (sites : list Site) (i : nat) (site : Site) :
  sites !! i = Some site ->
  @lookup nat Vector3 (list Vector3) _ i (liftedSites sites)
  = Some (x site, y site, sq (x site) + sq (y site) - weight site).
Proof.
  intros H. unfold liftedSites.
  pose proof (list_lookup_fmap
                (fun site => (x site, y site, sq (x site) + sq (y site) - weight site))
                sites i) as E.
  rewrite H in E. exact E.
Qed.

Lemma lowerEnvelopeFace_points (sites : list Site) (face : list nat) :
  Forall (fun i => (i < length sites)%nat) face ->
  mapM' (fun vertex : option Vector3 =>
           match vertex with
           | Some v => Ok (Some (fst (fst v), snd (fst v)))
           | None => Throw TypeError
           end)
        (List.map (fun index => liftedSites sites !! index) face)
  = Ok (List.map Some (facePoints sites face)) /\
  length (facePoints sites face) = length face.
Proof.
  induction 1 as [|i face Hi _ [IH Hlen]]; [split; reflexivity|].
  destruct (lookup_lt_is_Some_2 sites i Hi) as [site Hsite].
  cbn [List.map mapM']. rewrite (liftedSites_lookup _ _ _ Hsite), IH.
  unfold facePoints. cbn [omap list_omap]. rewrite Hsite.
  fold (facePoints sites face). split; [reflexivity|].
  simpl. now rewrite Hlen.
Qed.

(** X9. With four sites or more, a hull whose faces have a vertex and list
    indices of sites, and a bounding polygon that is not empty, the
    diagram is returned.  It has one cell per hull face, in the order of
    the faces: the cell at position [f] is [omega] clipped by the polygon
    of the sites that face [f] lists, and it holds points only or is
    [[undefined]]. *)
Theorem computePowerDiagram_one_cell_per_hull_face
    (sites : list Site) (omega : list Point) hull :
  (4 <= length sites)%nat ->
  qh (liftedSites sites) false = Ok hull ->
  hullFacesOk (length sites) hull ->
  omega <> [] ->
  exists cells,
    computePowerDiagram qh sites omega = Ok cells /\
    length cells = length hull /\
    forall f face, hull !! f = Some face ->
      exists cell,
        cells !! f = Some cell /\
        polygonClip (List.map Some (facePoints sites face)) (List.map Some omega)
        = Ok cell /\
        (allPoints cell \/ cell = [None]).
Proof.
  intros Hlen Hq Hok Homega. unfold computePowerDiagram.
  apply Nat.ltb_ge in Hlen. rewrite Hlen. fold (liftedSites sites).
  rewrite Hq. cbn [bind].
  set (cellOfFace :=
         fun face : list nat =>
           let vertices := List.map (fun index => liftedSites sites !! index) face in
           let* lowerEnvelopeFace :=
             mapM' (fun vertex : option Vector3 =>
                      match vertex with
                      | Some v => Ok (Some (fst (fst v), snd (fst v)))
                      | None => Throw TypeError
                      end)
                   vertices in
           polygonClip lowerEnvelopeFace (List.map Some omega)).
  assert (Hface : forall face, In face hull ->
            cellOfFace face
            = polygonClip (List.map Some (facePoints sites face)) (List.map Some omega) /\
            exists cell,
              cellOfFace face = Ok cell /\ (allPoints cell \/ cell = [None])).
  { intros face Hin. unfold hullFacesOk in Hok. rewrite List.Forall_forall in Hok.
    destruct (Hok face Hin) as [Hne Hix].
    destruct (lowerEnvelopeFace_points sites face Hix) as [Hpoints Hl].
    assert (Heq : cellOfFace face
                  = polygonClip (List.map Some (facePoints sites face))
                                (List.map Some omega)).
    { unfold cellOfFace. cbv zeta. rewrite Hpoints. reflexivity. }
    split; [exact Heq|]. rewrite Heq.
    destruct (polygonClip_total (facePoints sites face) omega) as [cell [Hcell Hshape]];
      [destruct (facePoints sites face), face; simpl in *; congruence|exact Homega|].
    exists cell. split; [exact Hcell|]. destruct Hshape as [H|[_ H]]; auto. }
  destruct (mapM'_total cellOfFace hull) as [cells Hcells].
  { apply List.Forall_forall. intros face Hin.
    destruct (Hface face Hin) as [_ [cell [Hcell _]]]. eauto. }
  exists cells. split; [exact Hcells|]. split; [now apply mapM'_length in Hcells|].
  intros f face Hf.
  destruct (mapM'_lookup _ _ _ _ _ Hcells Hf) as (cell & Hcell & Hrun).
  assert (Hin : In face hull)
    by (apply list_elem_of_In; eapply list_elem_of_lookup_2; exact Hf).
  destruct (Hface face Hin) as [Heq [cell' [Hcell' Hshape]]].
  exists cell. split; [exact Hcell|]. split; [now rewrite <- Heq|].
  assert (cell' = cell) as <- by congruence. exact Hshape.
Qed.

Lemma relaxRun_never_below (this : WeightedVoronoi) (remaining : nat) :
  (0 <? ethreshold this) = false ->
  forall diagram d,
    outcome (relaxRun qh this remaining diagram) = Ok d ->
    iterations (relaxRun qh this remaining diagram) = remaining /\
    length (errors (relaxRun qh this remaining diagram)) = remaining.
Proof.
  intros Hthreshold.
  induction remaining as [|n IH]; cbn [relaxRun]; intros diagram d Hd; [auto|].
  destruct (relaxOnce qh this diagram) as [r|ex] eqn:Hr; [|discriminate].
  assert (Hlt : (snd r <? ethreshold this) = false).
  { apply not_negative_not_below; [|exact Hthreshold].
    unfold relaxOnce in Hr.
    destruct (adaptPositionsAndWeights _ _) as [adapted|]; [|discriminate].
    cbn [bind] in Hr.
    destruct (computePowerDiagram qh adapted _) as [diagram'|]; [|discriminate].
    cbn [bind] in Hr.
    destruct (calculateTotalError adapted diagram') as [error|] eqn:He; [|discriminate].
    cbn [bind] in Hr. inversion Hr; subst r. simpl.
    now apply calculateTotalError_Ok_not_negative in He. }
  rewrite Hlt in *. cbn [iterations errors outcome length] in *.
  destruct (IH _ _ Hd) as [-> ->]. auto.
Qed.

(** X16. With a threshold that is zero, negative or [NaN] no error is below it:
    a run of [compute] that returns has gone through all 50 turns. *)
Theorem compute_never_converges_below_zero (this : WeightedVoronoi) diagram :
  (0 <? ethreshold this) = false ->
  compute qh random this = Ok diagram ->
  iterations (computeRun qh random this) = IMAX /\
  length (errors (computeRun qh random this)) = IMAX.
Proof.
  intros Hthreshold. unfold compute, computeRun.
  destruct (initializeDiagram qh random this) as [initial|]; [|discriminate].
  cbn [bind]. rewrite <- relaxRun_outcome. apply relaxRun_never_below, Hthreshold.
Qed.

Lemma relax_no_sites (this : WeightedVoronoi) (remaining : nat) :
  sites this = [] -> relax qh this remaining [] = Ok [].
Proof.
  intros Hsites. induction remaining as [|n IH]; cbn [relax]; [reflexivity|].
  unfold relaxOnce. rewrite Hsites. cbn.
  destruct (0 <? ethreshold this); [reflexivity|exact IH].
Qed.

(** X17. Without sites there is nothing to relax: [compute] returns the empty
    diagram, whatever the bounding polygon and the threshold, and the hull
    routine is not called. *)
Theorem compute_no_sites (omega : list Point) (ethreshold : option float) :
  compute qh random (constructor omega [] ethreshold) = Ok [].
Proof.
  unfold compute, initializeDiagram. cbn [sites constructor length seq List.map].
  unfold computePowerDiagram at 1. cbn [length Nat.ltb Nat.leb bind].
  now apply relax_no_sites.
Qed.

Lemma compute_few_sites (this : WeightedVoronoi) :
  (0 < length (sites this) < 4)%nat ->
  compute qh random this = Throw TypeError.
Proof.
  intros [Hpos Hlt]. unfold compute, initializeDiagram.
  rewrite computePowerDiagram_guard
    by (rewrite length_map, length_seq; apply Nat.ltb_lt; exact Hlt).
  cbn [bind]. unfold IMAX. cbn [relax]. unfold relaxOnce.
  destruct (missing_cell_TypeError (sites this) []) as [-> _];
    [exact Hpos|reflexivity].
Qed.

End WithHostMore.

Lemma computePowerDiagram_one_cell_per_hull_face_witness :
  let hull := [[0; 1; 2]; [0; 3; 1]; [0; 2; 3]; [1; 3; 2]]%nat in
  exists cells,
    computePowerDiagram qhTetrahedron fourSites squareOmega = Ok cells /\
    length cells = length hull /\
    forall f face, hull !! f = Some face ->
      exists cell,
        cells !! f = Some cell /\
        polygonClip (List.map Some (facePoints fourSites face)) (List.map Some squareOmega)
        = Ok cell /\
        (allPoints cell \/ cell = [None]).
Proof.
  intros hull.
  apply (computePowerDiagram_one_cell_per_hull_face qhTetrahedron fourSites squareOmega
           hull).
  - simpl. lia.
  - reflexivity.
  - repeat constructor; simpl; try discriminate; lia.
  - discriminate.
Defined.

Lemma compute_never_converges_below_zero_witness :
  let this := constructor squareOmega fourSites (Some 0) in
  exists diagram,
    compute qhTetrahedron randomHalf this = Ok diagram /\
    iterations (computeRun qhTetrahedron randomHalf this) = IMAX /\
    length (errors (computeRun qhTetrahedron randomHalf this)) = IMAX.
Proof.
  intros this.
  destruct (compute qhTetrahedron randomHalf this) as [diagram|] eqn:H;
    [|vm_compute in H; discriminate].
  exists diagram. split; [reflexivity|].
  apply (compute_never_converges_below_zero qhTetrahedron randomHalf this diagram);
    [reflexivity|exact H].
Defined.

(** *** Rendering ([render]) *)

Lemma drawCell_no_restore (cell : Points) :
  Forall (fun op => isRestore op = false) (fst (drawCell cell)).
Proof.
  unfold drawCell. apply seqD_Forall. repeat constructor.
  apply forEachD_Forall. intros [p|] _; repeat constructor.
Qed.

Section Rendering.

Variable qh : list Vector3 -> bool -> result (list (list nat)).
Variable random : nat -> float.

(** The calls of [render] on a canvas with a context: those up to the
    call of [compute], which always go through and hold the one [save];
    then, if [compute] returned, those for the cells and the [restore]. *)
Lemma render_shape (this : WeightedVoronoi) (canvas : HTMLCanvasElement) :
  getContext2d canvas = true ->
  exists pre,
    Forall (fun op => isRestore op = false) pre /\
    In ctx_save pre /\
    match compute qh random this with
    | Throw e => render qh random this canvas = (pre, Some (Raised e))
    | Ok diagram =>
        let cells := seqD [emit (ctx_fillStyle "rgba(0, 0, 255, 0.2)");
                           forEachD drawCell diagram] in
        Forall (fun op => isRestore op = false) (fst cells) /\
        render qh random this canvas
        = match snd cells with
          | Ok _ => (pre ++ fst cells ++ [ctx_restore], None)
          | Throw e => (pre ++ fst cells, Some (Raised e))
          end
    end.
Proof.
  intros Hctx. unfold render. rewrite Hctx. cbn [negb]. cbv zeta.
  match goal with
  | |- context [seqD (?s1 :: ?s2 :: ?s3 :: ?s4 :: ?s5 :: ?s6 :: ?s7 :: ?s8 :: ?s9
                        :: ?s10 :: ?s11 :: ?post)] =>
      change (seqD (s1 :: s2 :: s3 :: s4 :: s5 :: s6 :: s7 :: s8 :: s9 :: s10
                       :: s11 :: post))
        with (seqD ([s1; s2; s3; s4; s5; s6; s7; s8; s9; s10; s11] ++ post));
      rewrite (seqD_app [s1; s2; s3; s4; s5; s6; s7; s8; s9; s10; s11] post);
      assert (Hpre : seqD [s1; s2; s3; s4; s5; s6; s7; s8; s9; s10; s11]
                     = (concat (List.map fst [s1; s2; s3; s4; s5; s6; s7; s8; s9;
                                               s10; s11]), Ok tt));
      [apply seqD_ok; repeat constructor;
       rewrite forEachD_ok by (intros; reflexivity); reflexivity
      |rewrite Hpre; clear Hpre;
       exists (concat (List.map fst [s1; s2; s3; s4; s5; s6; s7; s8; s9; s10; s11]))]
  end.
  split; [|split].
  - cbn [List.map concat fst emit app]. repeat constructor.
    apply Forall_app. split.
    + apply forEachD_Forall. intros; repeat constructor.
    + repeat constructor. rewrite app_nil_r.
      apply forEachD_Forall. intros; repeat constructor.
  - cbn [List.map concat fst emit app]. right. left. reflexivity.
  - destruct (compute qh random this) as [diagram|e].
    + rewrite bindD_lift_ok. cbv beta zeta. split.
      * apply seqD_Forall. repeat constructor.
        apply forEachD_Forall. intros cell _. apply drawCell_no_restore.
      * remember (seqD [emit (ctx_fillStyle "rgba(0, 0, 255, 0.2)");
                        forEachD drawCell diagram]) as cells eqn:Hcells.
        clear Hcells. destruct cells as [ops [[]|e]]; simpl;
          [now rewrite app_nil_r|reflexivity].
    + simpl. now rewrite app_nil_r.
Qed.

(** X19. Without a 2D context [render] throws its [Error] and draws nothing;
    with one it clears the canvas and saves the state first, and never
    throws that [Error]. *)
Theorem render_without_context (this : WeightedVoronoi) (canvas : HTMLCanvasElement) :
  (getContext2d canvas = false ->
   render qh random this canvas
   = ([], Some (Error "Failed to get 2D rendering context"))) /\
  (getContext2d canvas = true ->
   In ctx_save (fst (render qh random this canvas)) /\
   forall message, snd (render qh random this canvas) <> Some (Error message)).
Proof.
  split.
  - intros H. unfold render. now rewrite H.
  - intros H. destruct (render_shape this canvas H) as (pre & _ & Hsave & Hshape).
    destruct (compute qh random this) as [diagram|e].
    + destruct Hshape as [_ ->].
      destruct (snd (seqD _)) as [[]|e]; simpl;
        (split; [apply in_or_app; now left|discriminate]).
    + rewrite Hshape. split; [exact Hsave|discriminate].
Qed.

(** X20. On a canvas with a context [restore] is called exactly when [render]
    returns: an exception, from [compute] or from a cell that holds
    [undefined], leaves the saved state on the context's stack. *)
Theorem render_restores_iff_it_returns (this : WeightedVoronoi) (canvas : HTMLCanvasElement) :
  getContext2d canvas = true ->
  (snd (render qh random this canvas) = None <->
   In ctx_restore (fst (render qh random this canvas))) /\
  (snd (render qh random this canvas) = None ->
   last (fst (render qh random this canvas)) = Some ctx_restore).
Proof.
  intros H. destruct (render_shape this canvas H) as (pre & Hpre & _ & Hshape).
  assert (Hno : forall ops, Forall (fun op => isRestore op = false) ops ->
                            ~ In ctx_restore ops).
  { intros ops Hops Hin. rewrite List.Forall_forall in Hops.
    now apply Hops in Hin. }
  destruct (compute qh random this) as [diagram|e].
  - destruct Hshape as [Hcells ->].
    destruct (snd (seqD _)) as [[]|e]; simpl.
    + split; [split; [intros _|reflexivity]|intros _].
      * apply in_or_app. right. apply in_or_app. right. now left.
      * now rewrite app_assoc, last_snoc.
    + split; [split; [discriminate|]|discriminate].
      intros Hin. apply in_app_or in Hin as [Hin|Hin]; now apply Hno in Hin.
  - rewrite Hshape. simpl.
    split; [split; [discriminate|]|discriminate].
    intros Hin. now apply Hno in Hin.
Qed.

(** X21. With one, two or three sites [render] draws the bounding polygon and
    the sites and then throws the [TypeError] of [compute]: the state it
    saved is not restored. *)
Theorem render_few_sites (this : WeightedVoronoi) (canvas : HTMLCanvasElement) :
  getContext2d canvas = true ->
  (0 < length (sites this) < 4)%nat ->
  compute qh random this = Throw TypeError /\
  snd (render qh random this canvas) = Some (Raised TypeError) /\
  In ctx_save (fst (render qh random this canvas)) /\
  ~ In ctx_restore (fst (render qh random this canvas)).
Proof.
  intros H Hsites.
  destruct (render_shape this canvas H) as (pre & Hpre & Hsave & Hshape).
  pose proof (compute_few_sites qh random this Hsites) as Hcompute.
  rewrite Hcompute in Hshape. rewrite Hshape. simpl.
  split; [exact Hcompute|]. split; [reflexivity|]. split; [exact Hsave|].
  intros Hin. rewrite List.Forall_forall in Hpre. now apply Hpre in Hin.
Qed.

End Rendering.

Lemma render_restores_iff_it_returns_witness :
  let this := constructor squareOmega fourSites None in
  (snd (render qhTetrahedron randomHalf this canvas2d) = None <->
   In ctx_restore (fst (render qhTetrahedron randomHalf this canvas2d))) /\
  (snd (render qhTetrahedron randomHalf this canvas2d) = None ->
   last (fst (render qhTetrahedron randomHalf this canvas2d)) = Some ctx_restore).
Proof.
  intros this.
  apply (render_restores_iff_it_returns qhTetrahedron randomHalf this canvas2d).
  reflexivity.
Defined.

Lemma render_few_sites_witness :
  let this := constructor squareOmega threeSites None in
  compute qhThrows randomHalf this = Throw TypeError /\
  snd (render qhThrows randomHalf this canvas2d) = Some (Raised TypeError) /\
  In ctx_save (fst (render qhThrows randomHalf this canvas2d)) /\
  ~ In ctx_restore (fst (render qhThrows randomHalf this canvas2d)).
Proof.
  intros this.
  apply (render_few_sites qhThrows randomHalf this canvas2d);
    [reflexivity|simpl; lia].
Defined.

(** *** Distances *)

(** The distance to the line through two equal points is [NaN]. *)
Lemma distanceToLine_coincident (point p : Point) : distanceToLine point p p = nan.
Proof.
  unfold distanceToLine. cbv zeta.
  assert (Ht : ((fst point - fst p) * (fst p - fst p)
                + (snd point - snd p) * (snd p - snd p))
               / (sq (fst p - fst p) + sq (snd p - snd p)) = nan).
  { apply div_zero_or_nan; apply add_zero_or_nan;
      try (apply mul_zero_or_nan_r; apply sub_diag_spec);
      unfold sq; apply mul_zero_or_nan_l; apply sub_diag_spec. }
  rewrite Ht, !mul_nan_l, !add_nan_r, !sub_nan. reflexivity.
Qed.

Lemma at_points (l : list Point) (i : nat) : at_ (List.map Some l) (Z.of_nat i) = l !! i.
Proof.
  unfold at_. destruct (Z.of_nat i <? 0)%Z eqn:E; [apply Z.ltb_lt in E; lia|].
  rewrite Nat2Z.id. change (List.map Some l) with (Some <$> l).
  rewrite list_lookup_fmap. now destruct (l !! i).
Qed.

Lemma closestEdge_nan (point : Point) (polygon : list Point) (i : nat) (p : Point)
    (ixs : list nat) :
  polygon !! i = Some p ->
  polygon !! ((i + 1) mod length polygon)%nat = Some p ->
  Forall (fun j => (j < length polygon)%nat) ixs ->
  forall minDistance,
    In i ixs \/ minDistance = nan ->
    foldM (fun acc j =>
             match at_ (List.map Some polygon) (Z.of_nat j),
                   at_ (List.map Some polygon)
                       (Z.of_nat ((j + 1) mod length polygon)) with
             | Some p1, Some p2 => Ok (Math_min acc (distanceToLine point p1 p2))
             | _, _ => Throw TypeError
             end)
          ixs minDistance
    = Ok nan.
Proof.
  intros Hi Hnext. induction 1 as [|j ixs Hj _ IH]; intros minDistance Hor.
  - destruct Hor as [[]| ->]. reflexivity.
  - cbn [foldM]. rewrite !at_points.
    destruct (lookup_lt_is_Some_2 polygon j Hj) as [p1 Hp1].
    assert (Hj' : ((j + 1) mod length polygon < length polygon)%nat)
      by (apply Nat.mod_upper_bound; lia).
    destruct (lookup_lt_is_Some_2 polygon _ Hj') as [p2 Hp2].
    rewrite Hp1, Hp2. cbn [bind]. apply IH.
    destruct (Nat.eq_dec i j) as [->|Hne].
    + right. assert (p1 = p) as -> by congruence.
      assert (p2 = p) as -> by congruence.
      now rewrite distanceToLine_coincident, Math_min_nan_r.
    + destruct Hor as [[Heq|Hin]| ->]; [congruence|now left|].
      right. reflexivity.
Qed.

(** X18. A polygon in which a vertex is followed by an equal one, the last
    vertex by the first, has no distance to its closest edge: the result is
    [NaN], whatever the point. *)
Theorem distanceToClosestEdge_repeated_vertex (point : Point) (polygon : list Point)
    (i : nat) (p : Point) :
  polygon !! i = Some p ->
  polygon !! ((i + 1) mod length polygon)%nat = Some p ->
  distanceToClosestEdge point (Some (List.map Some polygon)) = Ok nan.
Proof.
  intros Hi Hnext. unfold distanceToClosestEdge, forEdges. rewrite !length_map.
  apply (closestEdge_nan point polygon i p); [exact Hi|exact Hnext| |].
  - apply List.Forall_forall. intros j Hj. apply in_seq in Hj. lia.
  - left. apply in_seq. apply lookup_lt_Some in Hi. lia.
Qed.

Lemma distanceToClosestEdge_repeated_vertex_witness :
  distanceToClosestEdge (1, 1) (Some (List.map Some repeatedVertex)) = Ok nan.
Proof.
  apply (distanceToClosestEdge_repeated_vertex (1, 1) repeatedVertex 1 (4, 0));
    reflexivity.
Defined.

Lemma pushIntersection_zero_divisor_witness :
  (uaDivisor (0, 0) (1, 0) (0, 1) (1, 1) =? 0) = true /\
  pushIntersection (Some (0, 0)) (Some (1, 0)) (Some (0, 1)) (Some (1, 1)) []
  = Ok [].
Proof.
  split; [reflexivity|].
  apply (pushIntersection_zero_divisor (0, 0) (1, 0) (0, 1) (1, 1) []). reflexivity.
Defined.

(** C4, on three sites.  The claim holds of the class's private
    [computePowerDiagram] only, and no caller gets its empty diagram: the
    exported [computePowerDiagram] has no test on the number of sites, so
    for every hull routine it returns three cells or throws, and it never
    returns the empty list; and the public [compute] of the class throws a
    [TypeError], because its first turn reads the cell of the first site
    in the empty diagram. *)
Theorem computePowerDiagram_three_sites_not_empty :
  (forall qh (s1 s2 s3 : PowerDiagram.Site),
     match PowerDiagram.computePowerDiagram qh [s1; s2; s3] with
     | Ok cells => length cells = 3%nat
     | Throw e =>
         qh (PowerDiagramSpec.pointsOfSites [s1; s2; s3]) = Throw e \/ e = TypeError
     end) /\
  PowerDiagram.computePowerDiagram PowerDiagramSpec.qhRefuses
    PowerDiagramSpec.triangleSites = Throw HullError /\
  PowerDiagram.computePowerDiagram PowerDiagramSpec.qhOneTriangle
    PowerDiagramSpec.triangleSites
  = Ok [[PowerDiagram.Build_Point2D 2 2]; [PowerDiagram.Build_Point2D 2 2];
        [PowerDiagram.Build_Point2D 2 2]] /\
  (forall qh random omega (s1 s2 s3 : Site) ethreshold,
     compute qh random (constructor omega [s1; s2; s3] ethreshold) = Throw TypeError) /\
  (forall qh omega (s1 s2 s3 : Site),
     computePowerDiagram qh [s1; s2; s3] omega = Ok []).
Proof.
  split; [|split; [|split; [|split]]].
  - intros qh s1 s2 s3.
    apply (PowerDiagramProps.computePowerDiagram_returns_or_throws qh [s1; s2; s3]).
  - reflexivity.
  - vm_compute. reflexivity.
  - intros qh random omega s1 s2 s3 ethreshold.
    apply compute_few_sites. simpl. lia.
  - intros qh omega s1 s2 s3. now apply computePowerDiagram_guard.
Qed.

End WeightedVoronoiProps.
